(** * Password service: validation, generation and strength scoring

    A shallow embedding of the core of the password service
    ([app/core], [app/services], [app/models/request_schemas.py] and the
    [/password/full] route) together with the properties its specification
    states about it.

    Conventions of the embedding:
    - a Python [int] is a [Z];
    - a Python [str] is the list of its code points ([str := list N]), so
      that statements quantified over passwords cover every Unicode string;
      string literals of the source that are only compared or reported
      (labels, error messages) are Rocq [string]s;
    - [None]-able arguments are [option]s;
    - an exception is a value of [exn]; code that can raise returns
      [result A := exn + A];
    - code that draws random numbers threads the random source explicitly
      (module [generator]);
    - a Python [float] is an IEEE-754 binary64 value, [spec_float] with
      53 bits of precision (module [pyfloat]). *)

From Stdlib Require Import ZArith NArith List String Ascii Bool Lia Permutation.
From Stdlib Require Import Floats.SpecFloat.
Import ListNotations.

Local Open Scope Z_scope.

(** ** Python values *)

Definition char := N.
Definition str := list char.

(** The code points of an ASCII literal. *)
Definition codes (s : string) : str :=
  map N_of_ascii (list_ascii_of_string s).

(** [len(x)] *)
Definition len {A : Type} (x : list A) : Z := Z.of_nat (List.length x).

(** [ch in s] for a one-character [ch]: membership among the characters of [s]. *)
Definition char_in (ch : char) (s : str) : bool := existsb (N.eqb ch) s.

(** [any(f(ch) for ch in s)] *)
Definition any {A : Type} (f : A -> bool) (s : list A) : bool := existsb f s.

(** Truthiness of the two optional arguments the service tests with [or]
    and [not]: [None], the integer [0] and the empty string are falsy. *)
Definition truthy_int (x : option Z) : bool :=
  match x with
  | None => false
  | Some n => negb (n =? 0)
  end.

Definition truthy_str (x : option str) : bool :=
  match x with
  | None => false
  | Some [] => false
  | Some (_ :: _) => true
  end.

(** [x or d] for an optional integer [x]. *)
Definition int_or (x : option Z) (d : Z) : Z :=
  match x with
  | Some n => if truthy_int x then n else d
  | None => d
  end.

Inductive exn : Type :=
| ValueError (msg : string)
| IndexError (msg : string)
| OverflowError (msg : string)
| ValidationError (msg : string)
| HTTPException (status_code : Z) (detail : string).

Definition result (A : Type) : Type := (exn + A)%type.

Definition ok {A : Type} (a : A) : result A := inr a.
Definition raise {A : Type} (e : exn) : result A := inl e.

Definition rbind {A B : Type} (r : result A) (k : A -> result B) : result B :=
  match r with
  | inl e => inl e
  | inr a => k a
  end.

Declare Scope res_scope.
Delimit Scope res_scope with res.
Notation "x <- r ;; k" := (rbind r (fun x => k))
  (at level 100, r at next level, right associativity) : res_scope.

(** ** app/core/config.py *)

Module config.

Record PasswordPolicy : Type := {
  min_length : Z;
  max_length : Z;
  default_length : Z
}.

(** [PasswordPolicy()] with the defaults of its fields. *)
Definition get_policy : PasswordPolicy :=
  {| min_length := 12; max_length := 128; default_length := 16 |}.

End config.

(** ** app/core/security.py *)

Module security.

Definition UPPERCASE : str := codes "ABCDEFGHIJKLMNOPQRSTUVWXYZ".
Definition LOWERCASE : str := codes "abcdefghijklmnopqrstuvwxyz".
Definition DIGITS : str := codes "0123456789".
(** [string.punctuation]; code point 34 is the double quote. *)
Definition SYMBOLS : str :=
  codes "!" ++ [34%N] ++ codes "#$%&'()*+,-./:;<=>?@[\]^_`{|}~".

Definition FULL_SET : str := UPPERCASE ++ LOWERCASE ++ DIGITS ++ SYMBOLS.

End security.

(** ** app/core/validator.py *)

Module validator.
Import config security.

Record ValidationResult : Type := {
  length_ok : bool;
  upper_ok : bool;
  lower_ok : bool;
  digit_ok : bool;
  symbol_ok : bool
}.

(** The [overall_result] property: [all((...))] of the five flags. *)
Definition overall_result (self : ValidationResult) : bool :=
  forallb (fun b : bool => b)
    [length_ok self; upper_ok self; lower_ok self; digit_ok self; symbol_ok self].

Definition check_length (password : str) : bool :=
  let policy := get_policy in
  (min_length policy <=? len password) && (len password <=? max_length policy).

Definition check_upper (password : str) : bool :=
  any (fun ch => char_in ch UPPERCASE) password.

Definition check_lower (password : str) : bool :=
  any (fun ch => char_in ch LOWERCASE) password.

Definition check_digit (password : str) : bool :=
  any (fun ch => char_in ch DIGITS) password.

Definition check_symbol (password : str) : bool :=
  any (fun ch => char_in ch SYMBOLS) password.

Definition validate_password (password : str) : ValidationResult :=
  {| length_ok := check_length password;
     upper_ok := check_upper password;
     lower_ok := check_lower password;
     digit_ok := check_digit password;
     symbol_ok := check_symbol password |}.

End validator.

(** ** app/core/generator.py *)

Module generator.
Import config security.

(** The operating system's random source, as the infinite tape of the
    numbers it will deliver.  Every sequence of draws is the behaviour of
    some tape; nothing is assumed about its distribution. *)
Definition rng : Type := nat -> nat.

(** A computation that may draw from the random source and may raise. *)
Definition M (A : Type) : Type := rng -> result A * rng.

Definition ret {A : Type} (a : A) : M A := fun g => (inr a, g).

Definition throw {A : Type} (e : exn) : M A := fun g => (inl e, g).

Definition bind {A B : Type} (m : M A) (k : A -> M B) : M B :=
  fun g =>
    match m g with
    | (inl e, g') => (inl e, g')
    | (inr a, g') => k a g'
    end.

Definition lift {A : Type} (r : result A) : M A := fun g => (r, g).

Declare Scope gen_scope.
Delimit Scope gen_scope with gen.
Notation "x <- m ;; k" := (bind m (fun x => k))
  (at level 100, m at next level, right associativity) : gen_scope.
Local Open Scope gen_scope.

(** [randbelow(n)] for [n > 0]: the next number of the tape, reduced
    into [0, n). *)
Definition randbelow (n : nat) : M nat :=
  fun g => (inr (g 0%nat mod n)%nat, fun k => g (S k)).

(** [x[i]] and [x[i] = v] on a list, for a non-negative index. *)
Definition getitem {A : Type} (x : list A) (i : nat) : M A :=
  match nth_error x i with
  | Some a => ret a
  | None => throw (IndexError "list index out of range")
  end.

Fixpoint update {A : Type} (x : list A) (i : nat) (v : A) : list A :=
  match x, i with
  | [], _ => []
  | _ :: t, O => v :: t
  | a :: t, S i' => a :: update t i' v
  end.

Definition setitem {A : Type} (x : list A) (i : nat) (v : A) : M (list A) :=
  if (i <? List.length x)%nat then ret (update x i v)
  else throw (IndexError "list assignment index out of range").

(** [secrets.choice(seq)]: [seq[randbelow(len(seq))]]. *)
Definition choice {A : Type} (seq : list A) : M A :=
  match seq with
  | [] => throw (IndexError "Cannot choose from an empty sequence")
  | _ :: _ => i <- randbelow (List.length seq);; getitem seq i
  end.

(** [random.Random.shuffle], which [SecureRandom.shuffle] runs on the
    system source:
    [for i in reversed(range(1, len(x))): j = randbelow(i + 1);
     x[i], x[j] = x[j], x[i]]. *)
Fixpoint shuffle_from {A : Type} (i : nat) (x : list A) : M (list A) :=
  match i with
  | O => ret x
  | S i' =>
      j <- randbelow (i + 1);;
      xj <- getitem x j;;
      xi <- getitem x i;;
      x1 <- setitem x i xj;;
      x2 <- setitem x1 j xi;;
      shuffle_from i' x2
  end.

Definition shuffle {A : Type} (x : list A) : M (list A) :=
  shuffle_from (List.length x - 1) x.

(** [list(_pick(characters, count))] *)
Fixpoint pick_n (characters : str) (n : nat) : M str :=
  match n with
  | O => ret []
  | S n' =>
      c <- choice characters;;
      rest <- pick_n characters n';;
      ret (c :: rest)
  end.

Definition _pick (characters : str) (count : Z) : M str :=
  pick_n characters (Z.to_nat count).

Definition generate_password (length : option Z) : M str :=
  let policy := get_policy in
  let length := int_or length (default_length policy) in
  if length <? 4 then
    throw (ValueError "Password length must be at least 4 to satisfy constraints")
  else if length >? max_length policy then
    throw (ValueError "Requested password length exceeds policy maximum")
  else
    c_upper <- choice UPPERCASE;;
    c_lower <- choice LOWERCASE;;
    c_digit <- choice DIGITS;;
    c_symbol <- choice SYMBOLS;;
    let required_chars := [c_upper; c_lower; c_digit; c_symbol] in
    if length <? len required_chars then
      throw (ValueError "Length insufficient for required character categories")
    else
      let remaining_length := length - len required_chars in
      rest <- _pick FULL_SET remaining_length;;
      let password_chars := required_chars ++ rest in
      shuffled <- shuffle password_chars;;
      ret shuffled.

End generator.

(** ** Python floats

    A [float] is an IEEE-754 binary64 number; the arithmetic is the
    correctly rounded (round to nearest, ties to even) arithmetic of the
    hardware, as specified by [SpecFloat]. *)

Module pyfloat.

Definition prec : Z := 53.
Definition emax : Z := 1024.

Definition float : Type := spec_float.

Definition zero : float := S754_zero false.

(** Conversion of an [int] that takes part in float arithmetic. *)
Definition of_int (n : Z) : float := binary_normalize prec emax n 0 false.

Definition add (x y : float) : float := SFadd prec emax x y.
Definition mul (x y : float) : float := SFmul prec emax x y.
Definition div (x y : float) : float := SFdiv prec emax x y.
Definition ltb (x y : float) : bool := SFltb x y.

(** [a / b] on integers (true division).  A [str] has fewer than [2^63]
    characters, and for operands of that size the quotient by a small
    power of two is the float computed here. *)
Definition truediv (a b : Z) : float := div (of_int a) (of_int b).

(** The literals [0.4] and [1.5]. *)
Definition lit_0_4 : float := S754_finite false 7205759403792794 (-54).
Definition lit_1_5 : float := S754_finite false 6755399441055744 (-52).

(** [min(x, y)] on two arguments: [y] when [y < x], else [x]. *)
Definition min2 (x y : float) : float := if ltb y x then y else x.

(** [n > x] for an [int] [n] and a [float] [x]; Python compares the exact
    values. *)
Definition int_gt (n : Z) (x : float) : bool :=
  match x with
  | S754_nan => false
  | S754_infinity s => s
  | S754_zero _ => n >? 0
  | S754_finite s m e =>
      let v := cond_Zopp s (Zpos m) in
      if 0 <=? e then n >? v * 2 ^ e else n * 2 ^ (- e) >? v
  end.

(** [round(x)] with one argument: the nearest integer, ties to even;
    raises on NaN and on the infinities. *)
Definition round (x : float) : result Z :=
  match x with
  | S754_nan => raise (ValueError "cannot convert float NaN to integer")
  | S754_infinity _ =>
      raise (OverflowError "cannot convert float infinity to integer")
  | S754_zero _ => ok 0
  | S754_finite s m e =>
      if 0 <=? e then ok (cond_Zopp s (Zpos m * 2 ^ e))
      else
        let d := 2 ^ (- e) in
        let q := Zpos m / d in
        let r := Zpos m mod d in
        let n :=
          match 2 * r ?= d with
          | Lt => q
          | Gt => q + 1
          | Eq => if Z.even q then q else q + 1
          end in
        ok (cond_Zopp s n)
  end.

End pyfloat.

(** ** app/core/scoring.py *)

Module scoring.
Import security validator pyfloat.
Local Open Scope res_scope.

Module StrengthResult.
Record t : Type := { score : Z; label : string }.
End StrengthResult.

(** The dictionary [_LABELS], in insertion order; [range(a, b)] is the
    pair [(a, b)]. *)
Definition _LABELS : list ((Z * Z) * string) :=
  [ ((0, 4), "weak"%string);
    ((4, 7), "medium"%string);
    ((7, 11), "strong"%string) ].

Definition in_range (x : Z) (r : Z * Z) : bool :=
  (fst r <=? x) && (x <? snd r).

Definition _label_from_score (score : Z) : string :=
  match find (fun item => in_range score (fst item)) _LABELS with
  | Some item => snd item
  | None => "unknown"%string
  end.

Definition _character_set_size (password : str) : Z :=
  let size :=
    fold_left
      (fun size charset =>
         if any (fun ch => char_in ch charset) password
         then size + len charset else size)
      [UPPERCASE; LOWERCASE; DIGITS; SYMBOLS] 0 in
  Z.max size (len LOWERCASE).

(** [validation.upper_ok + ... + validation.symbol_ok] *)
Definition diversity (validation : ValidationResult) : Z :=
  fold_left Z.add
    (map Z.b2z [upper_ok validation; lower_ok validation;
                digit_ok validation; symbol_ok validation]) 0.

(** [min(len(password), 20) / 2] *)
Definition base (password : str) : float :=
  truediv (Z.min (len password) 20) 2.

(** [password.count(ch)] and the elements of [set(password)]. *)
Definition count (password : str) (ch : char) : Z :=
  Z.of_nat (count_occ N.eq_dec password ch).

Definition set (password : str) : list char := nodup N.eq_dec password.

Definition repetition_penalty (password : str) : Z :=
  if any (fun ch => int_gt (count password ch) (truediv (len password) 2))
         (set password)
  then -2 else 0.

Section Log2.

(** [math.log2] on a positive integer is the C library's; it is a
    parameter of the model. *)
Variable log2 : Z -> float.

Definition math_log2 (n : Z) : result float :=
  if n <=? 0 then raise (ValueError "math domain error") else ok (log2 n).

Definition _entropy (password : str) : result float :=
  let charset_size := _character_set_size password in
  match password with
  | [] => ok zero
  | _ :: _ => math_log2 (charset_size ^ len password)
  end.

(** [min(_entropy(password) / 10, 4)] *)
Definition entropy_score (password : str) : result float :=
  e <- _entropy password;;
  ok (min2 (div e (of_int 10)) (of_int 4)).

Definition raw_score (password : str) : result float :=
  let validation := validate_password password in
  es <- entropy_score password;;
  ok (add (add (add (mul (base password) lit_0_4)
                    (mul (of_int (diversity validation)) lit_1_5))
               es)
          (of_int (repetition_penalty password))).

Definition score (password : str) : result StrengthResult.t :=
  raw <- raw_score password;;
  rounded <- round raw;;
  let bounded_score := Z.max 0 (Z.min 10 rounded) in
  ok {| StrengthResult.score := bounded_score;
        StrengthResult.label := _label_from_score bounded_score |}.

End Log2.

End scoring.

(** ** app/services/password_service.py *)

Module password_service.
Import validator generator scoring.
Local Open Scope gen_scope.

Definition validate_flow (password : str) : ValidationResult :=
  validate_password password.

Definition generate_flow (length : option Z) : M str :=
  generate_password length.

Section Log2.
Variable log2 : Z -> pyfloat.float.

Definition strength_flow (password : str) : result StrengthResult.t :=
  score log2 password.

(** [pwd = password or generate_password(length)]: the generator runs
    only when [password] is falsy. *)
Definition full_flow (password : option str) (length : option Z)
  : M (str * ValidationResult * StrengthResult.t) :=
  pwd <- match password with
         | Some p => if truthy_str password then ret p
                     else generate_password length
         | None => generate_password length
         end;;
  let validation := validate_password pwd in
  strength <- lift (score log2 pwd);;
  ret (pwd, validation, strength).

End Log2.

End password_service.

(** ** app/models/request_schemas.py *)

Module request_schemas.

Module FullRequest.

Record t : Type := { password : option str; length : option Z }.

(** The constraints [ge=4, le=256] of the field [length]. *)
Definition check_length_field (length : option Z) : result unit :=
  match length with
  | None => ok tt
  | Some n =>
      if n <? 4 then
        raise (ValidationError "Input should be greater than or equal to 4")
      else if 256 <? n then
        raise (ValidationError "Input should be less than or equal to 256")
      else ok tt
  end.

Definition model_post_init (self : t) : result unit :=
  if negb (truthy_str (password self)) && negb (truthy_int (length self))
  then raise (ValueError "Provide either a password or a length for full analysis")
  else ok tt.

(** pydantic runs [model_post_init] as part of the validation of the
    model: a [ValueError] raised there comes out of the construction as a
    [ValidationError] whose message is the original one behind the prefix
    "Value error, ". *)
Definition wrap_value_error {A : Type} (r : result A) : result A :=
  match r with
  | inl (ValueError msg) => inl (ValidationError ("Value error, " ++ msg))
  | _ => r
  end.

(** Construction of the model: the fields are validated, then
    [model_post_init] runs on the instance. *)
Definition init (password : option str) (length : option Z) : result t :=
  rbind (check_length_field length) (fun _ =>
  let self := {| password := password; length := length |} in
  rbind (wrap_value_error (model_post_init self)) (fun _ =>
  ok self)).

End FullRequest.

Module PasswordRequest.

Record t : Type := { password : str }.

(** The field is required ([...]) and has [min_length=1]. *)
Definition init (password : option str) : result t :=
  match password with
  | None => raise (ValidationError "Field required")
  | Some [] =>
      raise (ValidationError "String should have at least 1 character")
  | Some (c :: p) => ok {| password := c :: p |}
  end.

End PasswordRequest.

Module GenerateRequest.

Record t : Type := { length : option Z }.

(** [length] is optional, with the constraints [ge=4, le=256]. *)
Definition init (length : option Z) : result t :=
  rbind (FullRequest.check_length_field length) (fun _ =>
  ok {| length := length |}).

End GenerateRequest.

End request_schemas.

(** ** app/models/response_schemas.py and app/routers/password.py *)

Module routers.
Import validator generator scoring password_service request_schemas.
Local Open Scope gen_scope.

Record ValidationResponse : Type := {
  r_length_ok : bool;
  r_upper_ok : bool;
  r_lower_ok : bool;
  r_digit_ok : bool;
  r_symbol_ok : bool;
  r_overall_result : bool
}.

Record StrengthResponse : Type := { r_score : Z; r_label : string }.

Record FullResponse : Type := {
  r_validation : ValidationResponse;
  r_strength : StrengthResponse;
  r_password : option str
}.

Definition validation_response (result : ValidationResult) : ValidationResponse :=
  {| r_length_ok := length_ok result;
     r_upper_ok := upper_ok result;
     r_lower_ok := lower_ok result;
     r_digit_ok := digit_ok result;
     r_symbol_ok := symbol_ok result;
     r_overall_result := overall_result result |}.

Definition strength_response (result : StrengthResult.t) : StrengthResponse :=
  {| r_score := StrengthResult.score result;
     r_label := StrengthResult.label result |}.

Section Log2.
Variable log2 : Z -> pyfloat.float.

(** The handler of [POST /password/full]: a [ValueError] of the flow
    becomes an [HTTPException] with status 400. *)
Definition full_analysis (request : FullRequest.t) : M FullResponse :=
  fun g =>
    match full_flow log2 (FullRequest.password request)
                    (FullRequest.length request) g with
    | (inl (ValueError msg), g') => (inl (HTTPException 400 msg), g')
    | (inl e, g') => (inl e, g')
    | (inr (password, validation, strength), g') =>
        (inr {| r_password :=
                  match FullRequest.password request with
                  | None => Some password
                  | Some _ => None
                  end;
                r_validation := validation_response validation;
                r_strength := strength_response strength |}, g')
    end.

(** A request to [POST /password/full]: the framework builds the
    [FullRequest] from the body and calls the handler with it; a body
    from which the model cannot be built is rejected with the
    [ValidationError] of the construction (status 422) and the handler
    is not called. *)
Definition post_full (password : option str) (length : option Z)
  : M FullResponse :=
  request <- lift (FullRequest.init password length);;
  full_analysis request.

End Log2.

End routers.

(** The three other routes of app/routers/password.py.  Their handlers
    bear the names of the core functions they serve, so they live in a
    module of their own. *)

Module password_routes.
Import generator request_schemas routers.
Local Open Scope gen_scope.

Record GeneratedPasswordResponse : Type := { password : str }.

(** [POST /password/validate] *)
Definition validate_password (request : PasswordRequest.t)
  : M ValidationResponse :=
  let result :=
    password_service.validate_flow (PasswordRequest.password request) in
  ret (validation_response result).

(** [POST /password/generate]: a [ValueError] of the flow becomes an
    [HTTPException] with status 400. *)
Definition generate_password (request : GenerateRequest.t)
  : M GeneratedPasswordResponse :=
  fun g =>
    match password_service.generate_flow (GenerateRequest.length request) g with
    | (inl (ValueError msg), g') => (inl (HTTPException 400 msg), g')
    | (inl e, g') => (inl e, g')
    | (inr password, g') => (inr {| password := password |}, g')
    end.

Section Log2.
Variable log2 : Z -> pyfloat.float.

(** [POST /password/strength] *)
Definition strength (request : PasswordRequest.t) : M StrengthResponse :=
  result <- lift (password_service.strength_flow log2
                    (PasswordRequest.password request));;
  ret (strength_response result).


End Log2.


Definition post_generate (length : option Z) : M GeneratedPasswordResponse :=
  request <- lift (GenerateRequest.init length);;
  generate_password request.

End password_routes.

(** * Vocabulary of the statements *)

Import config security validator generator scoring password_service.
Import request_schemas routers.

(** Two strings without a common character. *)
Definition disjoint (a b : str) : Prop := forall c, In c a -> In c b -> False.

Definition disjointb (a b : str) : bool :=
  forallb (fun c => negb (char_in c b)) a.

(** [returns m g a g']: run on the random source [g], the computation [m]
    returns [a] and leaves the source [g']. *)
Definition returns {A : Type} (m : M A) (g : rng) (a : A) (g' : rng) : Prop :=
  m g = (inr a, g').

(** The length the generator works with: its argument, or the policy's
    default when [length or policy.default_length] falls through. *)
Definition effective_length (length : option Z) : Z :=
  int_or length (default_length get_policy).

(** A tape of the random source, for running the generator. *)
Definition tape0 : rng := fun k => (7 * k + 3)%nat.

(** A stand-in for [math.log2] with which the model can be run: the
    integer part of the logarithm. *)
Definition log2_floor (n : Z) : pyfloat.float := pyfloat.of_int (Z.log2 n).

(** A float is [small K] when it is a zero or a finite number below
    [2 ^ K] in magnitude. *)
Definition small (K : Z) (x : pyfloat.float) : Prop :=
  match x with
  | S754_zero _ => True
  | S754_finite _ m e => Zpos (digits2_pos m) + e <= K
  | _ => False
  end.

(** The boolean form of [small]. *)
Definition smallb (K : Z) (x : pyfloat.float) : bool :=
  match x with
  | S754_zero _ => true
  | S754_finite _ m e => Zpos (digits2_pos m) + e <=? K
  | _ => false
  end.

(** A non-negative float: a zero, [+inf], or a positive finite number
    with a mantissa of at most 53 digits. *)
Definition nonneg_canonical (x : pyfloat.float) : Prop :=
  match x with
  | S754_zero _ => True
  | S754_infinity s => s = false
  | S754_nan => False
  | S754_finite s m _ => s = false /\ Zpos (digits2_pos m) <= 53
  end.

(** The part of the raw score that does not depend on [math.log2]:
    [base * 0.4 + diversity * 1.5], for [base = b / 2]. *)
Definition fixed_part (b d : Z) : pyfloat.float :=
  pyfloat.add (pyfloat.mul (pyfloat.truediv b 2) pyfloat.lit_0_4)
    (pyfloat.mul (pyfloat.of_int d) pyfloat.lit_1_5).

(** * Properties *)

(** ** Character classes *)

Lemma char_in_In (c : char) (s : str) : char_in c s = true <-> In c s.
Proof.
  unfold char_in. rewrite existsb_exists. split.
  - intros [x [Hin Heq]]. apply N.eqb_eq in Heq. now subst.
  - intros Hin. exists c. split; [assumption | apply N.eqb_refl].
Qed.

Lemma disjointb_sound (a b : str) : disjointb a b = true -> disjoint a b.
Proof.
  unfold disjointb, disjoint. rewrite forallb_forall.
  intros H c Ha Hb. specialize (H c Ha).
  apply char_in_In in Hb. rewrite Hb in H. discriminate.
Qed.

Lemma any_exists {A : Type} (f : A -> bool) (s : list A) :
  any f s = true <-> exists x, In x s /\ f x = true.
Proof. unfold any. apply existsb_exists. Qed.

Lemma any_class_In (p class : str) :
  any (fun ch => char_in ch class) p = true <->
  exists c, In c p /\ In c class.
Proof.
  rewrite any_exists. split; intros [c [H1 H2]]; exists c; split; trivial;
    now apply char_in_In.
Qed.

Lemma any_Permutation {A : Type} (f : A -> bool) (s t : list A) :
  Permutation s t -> any f s = any f t.
Proof.
  intros HP.
  destruct (any f s) eqn:Es; destruct (any f t) eqn:Et; trivial.
  - apply any_exists in Es. destruct Es as [x [Hin Hf]].
    assert (any f t = true) as H.
    { apply any_exists. exists x. split; trivial.
      eapply Permutation_in; eassumption. }
    congruence.
  - apply any_exists in Et. destruct Et as [x [Hin Hf]].
    assert (any f s = true) as H.
    { apply any_exists. exists x. split; trivial.
      eapply Permutation_in; [apply Permutation_sym|]; eassumption. }
    congruence.
Qed.

(** C8: the four character classes are pairwise disjoint, and a character
    belongs to the generation alphabet [FULL_SET] exactly when it belongs
    to one of them. *)
Theorem character_classes_partition :
  disjoint UPPERCASE LOWERCASE /\ disjoint UPPERCASE DIGITS /\
  disjoint UPPERCASE SYMBOLS /\ disjoint LOWERCASE DIGITS /\
  disjoint LOWERCASE SYMBOLS /\ disjoint DIGITS SYMBOLS /\
  (forall c, In c FULL_SET <->
             In c UPPERCASE \/ In c LOWERCASE \/ In c DIGITS \/ In c SYMBOLS).
Proof.
  repeat split; try (apply disjointb_sound; vm_compute; reflexivity).
  - unfold FULL_SET. rewrite !in_app_iff. tauto.
  - unfold FULL_SET. rewrite !in_app_iff. tauto.
Qed.

(** ** Validator *)

Lemma check_length_spec (p : str) :
  check_length p = true <->
  min_length get_policy <= len p <= max_length get_policy.
Proof.
  unfold check_length. cbv zeta.
  rewrite andb_true_iff, !Z.leb_le. reflexivity.
Qed.

(** C2: [validate_password] is a total function of the password; its
    [length_ok] flag holds exactly when the length lies within the policy
    bounds, each class flag holds exactly when the password has a character
    of the class, and [overall_result] is the conjunction of the five
    flags. *)
Theorem validate_password_flags (p : str) :
  let v := validate_password p in
  (length_ok v = true <->
     min_length get_policy <= len p <= max_length get_policy) /\
  (upper_ok v = true <-> exists c, In c p /\ In c UPPERCASE) /\
  (lower_ok v = true <-> exists c, In c p /\ In c LOWERCASE) /\
  (digit_ok v = true <-> exists c, In c p /\ In c DIGITS) /\
  (symbol_ok v = true <-> exists c, In c p /\ In c SYMBOLS) /\
  overall_result v =
    length_ok v && upper_ok v && lower_ok v && digit_ok v && symbol_ok v.
Proof.
  cbv zeta. split; [apply check_length_spec|].
  repeat split.
  - apply any_class_In.
  - apply any_class_In.
  - apply any_class_In.
  - apply any_class_In.
  - apply any_class_In.
  - apply any_class_In.
  - apply any_class_In.
  - apply any_class_In.
  - unfold overall_result. cbn [forallb].
    rewrite andb_true_r, !andb_assoc. reflexivity.
Qed.

(** ** Generator *)

Lemma returns_ret {A : Type} (a : A) (g : rng) : returns (ret a) g a g.
Proof. reflexivity. Qed.

Lemma returns_bind {A B : Type} (m : M A) (k : A -> M B) g a g1 b g2 :
  returns m g a g1 -> returns (k a) g1 b g2 -> returns (bind m k) g b g2.
Proof. unfold returns, bind. intros -> ->. reflexivity. Qed.

Section ListUpdate.
Context {A : Type}.

Lemma update_length (x : list A) (i : nat) (v : A) :
  List.length (update x i v) = List.length x.
Proof.
  revert i. induction x as [|a t IH]; intros [|i]; simpl; auto.
Qed.

Lemma nth_error_update_same (x : list A) (i : nat) (v : A) :
  (i < List.length x)%nat -> nth_error (update x i v) i = Some v.
Proof.
  revert i. induction x as [|a t IH]; intros [|i]; simpl; intros H;
    try lia; auto. apply IH. lia.
Qed.

Lemma nth_error_update_other (x : list A) (i j : nat) (v : A) :
  i <> j -> nth_error (update x i v) j = nth_error x j.
Proof.
  revert i j. induction x as [|a t IH]; intros [|i] [|j] H; simpl; auto;
    congruence.
Qed.

(** Overwriting the element [a] at position [i] by [v] trades one [a]
    for one [v]. *)
Lemma update_Permutation (x : list A) (i : nat) (a v : A) :
  nth_error x i = Some a -> Permutation (a :: update x i v) (v :: x).
Proof.
  revert i. induction x as [|b t IH]; intros [|i]; simpl; intros H;
    try discriminate.
  - injection H as ->. apply perm_swap.
  - eapply perm_trans; [apply perm_swap|].
    eapply perm_trans; [apply perm_skip, IH, H|]. apply perm_swap.
Qed.

(** The exchange [x[i], x[j] = x[j], x[i]] permutes the list. *)
Lemma exchange_Permutation (x : list A) (i j : nat) (xi xj : A) :
  nth_error x i = Some xi -> nth_error x j = Some xj ->
  Permutation (update (update x i xj) j xi) x.
Proof.
  intros Hi Hj.
  assert (i < List.length x)%nat as Hlt
    by (apply nth_error_Some; congruence).
  assert (nth_error (update x i xj) j = Some xj) as Hj1.
  { destruct (Nat.eq_dec i j) as [<-|Hne].
    - now apply nth_error_update_same.
    - now rewrite nth_error_update_other. }
  apply (Permutation_cons_inv (a := xj)).
  eapply perm_trans; [apply (update_Permutation _ _ _ xi Hj1)|].
  apply (update_Permutation _ _ _ xj Hi).
Qed.

Lemma returns_getitem (x : list A) (i : nat) (g : rng) :
  (i < List.length x)%nat ->
  exists a, nth_error x i = Some a /\ returns (getitem x i) g a g.
Proof.
  intros H. destruct (nth_error x i) as [a|] eqn:E.
  - exists a. split; trivial. unfold returns, getitem. now rewrite E.
  - apply nth_error_None in E. lia.
Qed.

Lemma returns_setitem (x : list A) (i : nat) (v : A) (g : rng) :
  (i < List.length x)%nat -> returns (setitem x i v) g (update x i v) g.
Proof.
  intros H. unfold returns, setitem.
  apply Nat.ltb_lt in H. now rewrite H.
Qed.

(** The shuffle always completes, and its result is a permutation of
    its argument. *)
Lemma returns_shuffle_from (i : nat) :
  forall (x : list A) (g : rng),
    (i < List.length x)%nat ->
    exists y g', returns (shuffle_from i x) g y g' /\ Permutation y x.
Proof.
  induction i as [|i IH]; intros x g Hi.
  - exists x, g. split; [apply returns_ret | apply Permutation_refl].
  - set (j := (g 0%nat mod (S i + 1))%nat).
    assert (j < List.length x)%nat as Hj.
    { assert (j < S i + 1)%nat by (apply Nat.mod_upper_bound; lia). lia. }
    set (g1 := fun k => g (S k)).
    destruct (returns_getitem x j g1 Hj) as [xj [Ej Rj]].
    destruct (returns_getitem x (S i) g1 Hi) as [xi [Ei Ri]].
    assert (S i < List.length (update x (S i) xj))%nat as Hi1
      by now rewrite update_length.
    assert (j < List.length (update x (S i) xj))%nat as Hj1
      by now rewrite update_length.
    destruct (IH (update (update x (S i) xj) j xi) g1) as [y [g' [Ry Py]]].
    { rewrite !update_length. lia. }
    exists y, g'. split.
    + cbn [shuffle_from].
      eapply returns_bind; [reflexivity|]. fold j g1.
      eapply returns_bind; [exact Rj|].
      eapply returns_bind; [exact Ri|].
      eapply returns_bind; [apply returns_setitem, Hi|].
      eapply returns_bind; [apply returns_setitem, Hj1|].
      exact Ry.
    + eapply perm_trans; [exact Py|].
      now apply exchange_Permutation.
Qed.

Lemma returns_shuffle (x : list A) (g : rng) :
  exists y g', returns (shuffle x) g y g' /\ Permutation y x.
Proof.
  unfold shuffle. destruct x as [|a t].
  - exists [], g. split; [apply returns_ret | apply Permutation_refl].
  - apply returns_shuffle_from. simpl. lia.
Qed.

Lemma returns_choice (seq : list A) (g : rng) :
  seq <> [] ->
  exists a, returns (choice seq) g a (fun k => g (S k)) /\ In a seq.
Proof.
  intros Hne. destruct seq as [|b t]; [congruence|].
  set (i := (g 0%nat mod List.length (b :: t))%nat).
  assert (i < List.length (b :: t))%nat as Hi
    by (apply Nat.mod_upper_bound; discriminate).
  destruct (returns_getitem (b :: t) i (fun k => g (S k)) Hi)
    as [a [Ea Ra]].
  exists a. split.
  - unfold choice.
    eapply returns_bind; [reflexivity | exact Ra].
  - eapply nth_error_In. exact Ea.
Qed.

End ListUpdate.

Lemma returns_pick_n (characters : str) (n : nat) :
  characters <> [] ->
  forall g, exists s g',
    returns (pick_n characters n) g s g' /\ List.length s = n /\
    Forall (fun c => In c characters) s.
Proof.
  intros Hne. induction n as [|n IH]; intros g.
  - exists [], g. split; [apply returns_ret|]. split; [reflexivity|constructor].
  - destruct (returns_choice characters g Hne) as [c [Rc Hc]].
    destruct (IH (fun k => g (S k))) as [s [g' [Rs [Hlen Hall]]]].
    exists (c :: s), g'. split; [|split].
    + cbn [pick_n]. eapply returns_bind; [exact Rc|].
      eapply returns_bind; [exact Rs|]. apply returns_ret.
    + simpl. now rewrite Hlen.
    + now constructor.
Qed.

Lemma effective_length_Some (n : Z) : n <> 0 -> effective_length (Some n) = n.
Proof.
  intros H. unfold effective_length, int_or, truthy_int.
  apply Z.eqb_neq in H. now rewrite H.
Qed.

Lemma UPPERCASE_nonempty : UPPERCASE <> [].
Proof. discriminate. Qed.
Lemma LOWERCASE_nonempty : LOWERCASE <> [].
Proof. discriminate. Qed.
Lemma DIGITS_nonempty : DIGITS <> [].
Proof. discriminate. Qed.
Lemma SYMBOLS_nonempty : SYMBOLS <> [].
Proof. discriminate. Qed.
Lemma FULL_SET_nonempty : FULL_SET <> [].
Proof. discriminate. Qed.

Lemma In_FULL_SET (c : char) :
  In c UPPERCASE \/ In c LOWERCASE \/ In c DIGITS \/ In c SYMBOLS ->
  In c FULL_SET.
Proof. unfold FULL_SET. rewrite !in_app_iff. tauto. Qed.

(** Within the bounds the generator returns: a password of the effective
    length, drawn from the alphabet, with a character of every class. *)
Lemma generate_password_returns (length : option Z) (g : rng) :
  4 <= effective_length length <= max_length get_policy ->
  exists pwd g',
    returns (generate_password length) g pwd g' /\
    len pwd = effective_length length /\
    check_upper pwd = true /\ check_lower pwd = true /\
    check_digit pwd = true /\ check_symbol pwd = true /\
    Forall (fun c => In c FULL_SET) pwd.
Proof.
  intros [Hlo Hhi].
  destruct (returns_choice UPPERCASE g UPPERCASE_nonempty) as [cu [Ru Hu]].
  set (g1 := fun k => g (S k)) in *.
  destruct (returns_choice LOWERCASE g1 LOWERCASE_nonempty) as [cl [Rl Hl]].
  set (g2 := fun k => g1 (S k)) in *.
  destruct (returns_choice DIGITS g2 DIGITS_nonempty) as [cd [Rd Hd]].
  set (g3 := fun k => g2 (S k)) in *.
  destruct (returns_choice SYMBOLS g3 SYMBOLS_nonempty) as [cs [Rs Hs]].
  set (g4 := fun k => g3 (S k)) in *.
  destruct (returns_pick_n FULL_SET (Z.to_nat (effective_length length - 4))
              FULL_SET_nonempty g4) as [rest [g5 [Rr [Hlen Hall]]]].
  destruct (returns_shuffle ([cu; cl; cd; cs] ++ rest) g5)
    as [pwd [g6 [Rp Hperm]]].
  exists pwd, g6.
  assert (forall class c, In c [cu; cl; cd; cs] -> In c class ->
            any (fun ch => char_in ch class) pwd = true) as Hany.
  { intros class c Hc Hclass. apply any_class_In. exists c. split; trivial.
    eapply Permutation_in; [apply Permutation_sym, Hperm|].
    apply in_or_app. now left. }
  split; [|split; [|repeat split]].
  - unfold returns, generate_password. cbv zeta.
    fold (effective_length length).
    replace (effective_length length <? 4) with false
      by (symmetry; apply Z.ltb_ge; lia).
    replace (effective_length length >? max_length get_policy) with false
      by (symmetry; rewrite Z.gtb_ltb; apply Z.ltb_ge; lia).
    apply (returns_bind _ _ _ _ _ _ _ Ru).
    apply (returns_bind _ _ _ _ _ _ _ Rl).
    apply (returns_bind _ _ _ _ _ _ _ Rd).
    apply (returns_bind _ _ _ _ _ _ _ Rs).
    change (len [cu; cl; cd; cs]) with 4.
    replace (effective_length length <? 4) with false
      by (symmetry; apply Z.ltb_ge; lia).
    apply (returns_bind _ _ _ _ _ _ _ Rr).
    apply (returns_bind _ _ _ _ _ _ _ Rp).
    apply returns_ret.
  - unfold len. rewrite (Permutation_length Hperm), length_app, Hlen.
    cbn [List.length]. lia.
  - apply (Hany UPPERCASE cu); simpl; auto.
  - apply (Hany LOWERCASE cl); simpl; auto.
  - apply (Hany DIGITS cd); simpl; auto.
  - apply (Hany SYMBOLS cs); simpl; auto.
  - apply Forall_forall. intros c Hc.
    apply (Permutation_in _ Hperm) in Hc.
    apply in_app_or in Hc. destruct Hc as [Hc | Hc].
    + apply In_FULL_SET. simpl in Hc.
      destruct Hc as [<- | [<- | [<- | [<- | []]]]]; tauto.
    + revert c Hc. now apply Forall_forall.
Qed.

(** Outside the bounds the generator raises [ValueError] before drawing
    anything. *)
Lemma generate_password_raises (length : option Z) (g : rng) :
  effective_length length < 4 \/
  max_length get_policy < effective_length length ->
  exists msg, generate_password length g = (inl (ValueError msg), g).
Proof.
  intros H. unfold generate_password. cbv zeta.
  fold (effective_length length).
  destruct (effective_length length <? 4) eqn:E4.
  - eexists. reflexivity.
  - apply Z.ltb_ge in E4.
    replace (effective_length length >? max_length get_policy) with true
      by (symmetry; rewrite Z.gtb_ltb; apply Z.ltb_lt; lia).
    eexists. reflexivity.
Qed.

(** The generator raises exactly when the effective length, with [0]
    counted as an omitted argument, is out of bounds. *)
Lemma generate_password_raises_iff (length : option Z) (g : rng) :
  (exists e g', generate_password length g = (inl e, g')) <->
  effective_length length < 4 \/
  max_length get_policy < effective_length length.
Proof.
  split.
  - intros [e [g' He]].
    destruct (Z_lt_dec (effective_length length) 4) as [|Hlo]; [now left|].
    destruct (Z_lt_dec (max_length get_policy) (effective_length length))
      as [|Hhi]; [now right|].
    destruct (generate_password_returns length g) as [pwd [g'' [R _]]];
      [lia|].
    unfold returns in R. congruence.
  - intros H. destruct (generate_password_raises length g H) as [msg Hm].
    eauto.
Qed.

(** The bounds at work: lengths 3 and [max_length + 1] are refused before
    anything is drawn, a negative length as well. *)
Example generate_password_3 :
  generate_password (Some 3) tape0 =
    (inl (ValueError
            "Password length must be at least 4 to satisfy constraints"),
     tape0).
Proof. reflexivity. Qed.

Example generate_password_129 :
  generate_password (Some (max_length get_policy + 1)) tape0 =
    (inl (ValueError "Requested password length exceeds policy maximum"),
     tape0).
Proof. reflexivity. Qed.

Example generate_password_negative :
  generate_password (Some (-5)) tape0 =
    (inl (ValueError
            "Password length must be at least 4 to satisfy constraints"),
     tape0).
Proof. reflexivity. Qed.

(** C1: for every length [L] with [4 <= L <= max_length], the generator
    returns a password of exactly [L] characters that has an uppercase
    letter, a lowercase letter, a digit and a punctuation symbol. *)
Theorem generate_password_length_and_classes (L : Z) (g : rng) :
  4 <= L <= max_length get_policy ->
  exists pwd g',
    returns (generate_password (Some L)) g pwd g' /\
    len pwd = L /\
    (exists c, In c pwd /\ In c UPPERCASE) /\
    (exists c, In c pwd /\ In c LOWERCASE) /\
    (exists c, In c pwd /\ In c DIGITS) /\
    (exists c, In c pwd /\ In c SYMBOLS).
Proof.
  intros HL.
  assert (effective_length (Some L) = L) as HE
    by (apply effective_length_Some; lia).
  destruct (generate_password_returns (Some L) g)
    as [pwd [g' [R [Hlen [Hu [Hl [Hd [Hs _]]]]]]]]; [rewrite HE; exact HL|].
  exists pwd, g'. rewrite HE in Hlen.
  repeat split; trivial; now apply any_class_In.
Qed.

Lemma generate_password_length_and_classes_witness :
  exists pwd g',
    returns (generate_password (Some 8)) tape0 pwd g' /\
    len pwd = 8 /\
    (exists c, In c pwd /\ In c UPPERCASE) /\
    (exists c, In c pwd /\ In c LOWERCASE) /\
    (exists c, In c pwd /\ In c DIGITS) /\
    (exists c, In c pwd /\ In c SYMBOLS).
Proof.
  apply (generate_password_length_and_classes 8 tape0).
  vm_compute. split; discriminate.
Defined.

(** C3, at the requested length [0]: the generator does not raise; it
    returns a password of the policy's default length, because
    [length or policy.default_length] replaces the falsy [0] before the
    bounds are checked. *)
Theorem generate_password_zero_returns (g : rng) :
  exists pwd g',
    returns (generate_password (Some 0)) g pwd g' /\
    len pwd = default_length get_policy.
Proof.
  destruct (generate_password_returns (Some 0) g)
    as [pwd [g' [R [Hlen _]]]].
  - vm_compute. split; discriminate.
  - exists pwd, g'. split; assumption.
Qed.

(** C10: for every [L] with [4 <= L < min_length] the generator returns,
    and the password it returns fails the validator's length check, hence
    the overall result. *)
Theorem generate_password_below_min_length (L : Z) (g : rng) :
  4 <= L < min_length get_policy ->
  exists pwd g',
    returns (generate_password (Some L)) g pwd g' /\
    len pwd = L /\
    length_ok (validate_password pwd) = false /\
    overall_result (validate_password pwd) = false.
Proof.
  intros HL.
  assert (effective_length (Some L) = L) as HE
    by (apply effective_length_Some; lia).
  destruct (generate_password_returns (Some L) g)
    as [pwd [g' [R [Hlen _]]]].
  { rewrite HE. change (min_length get_policy) with 12 in HL.
    change (max_length get_policy) with 128. lia. }
  rewrite HE in Hlen.
  assert (check_length pwd = false) as Hck.
  { destruct (check_length pwd) eqn:E; trivial.
    apply check_length_spec in E. lia. }
  exists pwd, g'. repeat split; trivial.
  unfold overall_result. cbn [forallb validate_password length_ok].
  now rewrite Hck.
Qed.

Lemma generate_password_below_min_length_witness :
  exists pwd g',
    returns (generate_password (Some 11)) tape0 pwd g' /\
    len pwd = 11 /\
    length_ok (validate_password pwd) = false /\
    overall_result (validate_password pwd) = false.
Proof.
  apply (generate_password_below_min_length 11 tape0).
  vm_compute. split; [discriminate | reflexivity].
Defined.

(** ** Floating-point facts

    What the scorer needs from binary64 arithmetic: rounding a value keeps
    its sign and its order of magnitude, so sums of small numbers are
    finite. *)

Section FloatFacts.
Import pyfloat.

Lemma fexp_eq (x : Z) : fexp prec emax x = Z.max (x - 53) (-1074).
Proof. reflexivity. Qed.

(** [Zdigits2 m] is the least [k] with [m < 2 ^ k]. *)
Lemma digits2_pos_size (p : positive) : digits2_pos p = Pos.size p.
Proof. induction p; simpl; congruence. Qed.

Lemma digits2_pos_gt (p : positive) : Zpos p < 2 ^ Zpos (digits2_pos p).
Proof.
  rewrite digits2_pos_size.
  change 2 with (Zpos 2). rewrite <- Pos2Z.inj_pow.
  apply Pos2Z.pos_lt_pos, Pos.size_gt.
Qed.

Lemma digits2_pos_le (p : positive) :
  2 ^ Zpos (digits2_pos p) <= 2 * Zpos p.
Proof.
  rewrite digits2_pos_size.
  change 2 with (Zpos 2) at 1. rewrite <- Pos2Z.inj_pow.
  change (2 * Zpos p) with (Zpos p~0).
  apply Pos2Z.pos_le_pos, Pos.size_le.
Qed.

Lemma Zdigits2_nonneg (m : Z) : 0 <= Zdigits2 m.
Proof. destruct m; simpl; lia. Qed.

Lemma Zdigits2_lt_pow (m k : Z) :
  0 <= m -> Zdigits2 m <= k -> m < 2 ^ k.
Proof.
  intros Hm Hk. destruct m as [|p|p]; simpl in Hk; try lia.
  eapply Z.lt_le_trans; [apply digits2_pos_gt|].
  apply Z.pow_le_mono_r; lia.
Qed.

Lemma Zdigits2_le (m k : Z) :
  0 <= m -> 0 <= k -> m < 2 ^ k -> Zdigits2 m <= k.
Proof.
  intros Hm Hk Hlt. destruct m as [|p|p]; simpl; try lia.
  pose proof (digits2_pos_le p) as Hle.
  destruct (Z_le_gt_dec (Zpos (digits2_pos p)) k) as [|Hgt]; trivial.
  assert (2 ^ (k + 1) <= 2 ^ Zpos (digits2_pos p))
    by (apply Z.pow_le_mono_r; lia).
  rewrite Z.pow_add_r in H by lia. lia.
Qed.

(** *** Shifting right *)

Lemma shr_1_m (mrs : shr_record) :
  0 <= shr_m mrs -> shr_m (shr_1 mrs) = shr_m mrs / 2.
Proof.
  rewrite <- Z.div2_div.
  destruct mrs as [m r s]. simpl.
  destruct m as [|[p|p|]|p]; intros H; try reflexivity; lia.
Qed.

Lemma iter_shr_1_m (p : positive) :
  forall mrs, 0 <= shr_m mrs ->
    shr_m (iter_pos shr_1 p mrs) = shr_m mrs / 2 ^ Zpos p.
Proof.
  induction p as [p IH|p IH|]; intros mrs Hm; cbn [iter_pos].
  - assert (0 <= shr_m (shr_1 mrs)) as H1
      by (rewrite shr_1_m by trivial; apply Z.div_pos; lia).
    assert (0 <= shr_m (iter_pos shr_1 p (shr_1 mrs))) as H2
      by (rewrite IH by trivial; apply Z.div_pos; lia).
    rewrite IH, IH, shr_1_m by trivial.
    assert (0 < 2 ^ Zpos p) by (apply Z.pow_pos_nonneg; lia).
    rewrite !Z.div_div by lia.
    f_equal. replace (Zpos p~1) with (1 + Zpos p + Zpos p) by lia.
    rewrite !Z.pow_add_r by lia. change (2 ^ 1) with 2. ring.
  - assert (0 <= shr_m (iter_pos shr_1 p mrs)) as H2
      by (rewrite IH by trivial; apply Z.div_pos; lia).
    rewrite IH, IH by trivial.
    assert (0 < 2 ^ Zpos p) by (apply Z.pow_pos_nonneg; lia).
    rewrite !Z.div_div by lia.
    f_equal. replace (Zpos p~0) with (Zpos p + Zpos p) by lia.
    rewrite Z.pow_add_r by lia. ring.
  - rewrite shr_1_m by trivial. reflexivity.
Qed.

Lemma shr_record_of_loc_m (m : Z) (l : location) :
  shr_m (shr_record_of_loc m l) = m.
Proof. destruct l as [|[| |]]; reflexivity. Qed.

(** [shr_fexp] divides the mantissa by a power of two and raises the
    exponent to the canonical one. *)
Lemma shr_fexp_spec (m e : Z) (l : location) :
  0 <= m ->
  exists mrs e',
    shr_fexp prec emax m e l = (mrs, e') /\
    e' = Z.max e (fexp prec emax (Zdigits2 m + e)) /\
    shr_m mrs = m / 2 ^ (e' - e).
Proof.
  intros Hm. unfold shr_fexp, shr.
  destruct (fexp prec emax (Zdigits2 m + e) - e) as [|n|n] eqn:En.
  - eexists _, _. split; [reflexivity|]. split; [lia|].
    rewrite shr_record_of_loc_m.
    replace (e - e) with 0 by lia. now rewrite Z.div_1_r.
  - eexists _, _. split; [reflexivity|]. split; [lia|].
    rewrite iter_shr_1_m by now rewrite shr_record_of_loc_m.
    rewrite shr_record_of_loc_m. f_equal. f_equal. lia.
  - eexists _, _. split; [reflexivity|]. split; [lia|].
    rewrite shr_record_of_loc_m.
    replace (e - e) with 0 by lia. now rewrite Z.div_1_r.
Qed.

(** After [shr_fexp] the mantissa has at most [prec] digits, and the
    magnitude [digits + exponent] has not grown. *)
Lemma shr_fexp_digits (m e : Z) (l : location) :
  0 <= m ->
  exists mrs e',
    shr_fexp prec emax m e l = (mrs, e') /\
    e' = Z.max e (fexp prec emax (Zdigits2 m + e)) /\
    0 <= shr_m mrs /\
    Zdigits2 (shr_m mrs) <= 53 /\
    (0 < shr_m mrs -> Zdigits2 (shr_m mrs) + e' <= Zdigits2 m + e).
Proof.
  intros Hm.
  destruct (shr_fexp_spec m e l Hm) as [mrs [e' [E [He' Hq]]]].
  exists mrs, e'. split; [exact E|]. split; [exact He'|].
  rewrite fexp_eq in He'.
  pose proof (Zdigits2_nonneg m) as Hd.
  assert (0 <= e' - e) as Hn by lia.
  assert (0 < 2 ^ (e' - e)) as Hpow by (apply Z.pow_pos_nonneg; lia).
  rewrite Hq. split; [apply Z.div_pos; lia|]. split.
  - apply Zdigits2_le; [apply Z.div_pos; lia | lia |].
    apply Z.div_lt_upper_bound; [lia|].
    rewrite <- Z.pow_add_r by lia.
    apply Zdigits2_lt_pow; lia.
  - intros Hpos.
    assert (e' - e < Zdigits2 m) as Hlt.
    { destruct (Z_lt_ge_dec (e' - e) (Zdigits2 m)) as [|Hge]; trivial.
      assert (m < 2 ^ (e' - e)) by (apply Zdigits2_lt_pow; lia).
      rewrite Z.div_small in Hpos by lia. lia. }
    cut (Zdigits2 (m / 2 ^ (e' - e)) <= Zdigits2 m - (e' - e)); [lia|].
    apply Zdigits2_le; [apply Z.div_pos; lia | lia |].
    apply Z.div_lt_upper_bound; [lia|].
    rewrite <- Z.pow_add_r by lia.
    apply Zdigits2_lt_pow; lia.
Qed.

Lemma Zdigits2_succ (m : Z) : 0 <= m -> Zdigits2 (m + 1) <= Zdigits2 m + 1.
Proof.
  intros Hm. pose proof (Zdigits2_nonneg m) as Hd.
  apply Zdigits2_le; [lia | lia |].
  assert (m < 2 ^ Zdigits2 m) by (apply Zdigits2_lt_pow; lia).
  rewrite Z.pow_add_r by lia. change (2 ^ 1) with 2. lia.
Qed.

Lemma round_nearest_even_cases (m : Z) (l : location) :
  round_nearest_even m l = m \/ round_nearest_even m l = m + 1.
Proof.
  unfold round_nearest_even.
  destruct l as [|[| |]]; try destruct (Z.even m); auto.
Qed.

(** *** Rounding *)

(** The result of [binary_round_aux] on a non-negative mantissa: it is
    built from a mantissa [m2] of at most 53 digits and an exponent [e2]
    that stays below any bound [K] on the magnitude of the input. *)
Lemma binary_round_aux_cases (s : bool) (m e : Z) (l : location) :
  0 <= m ->
  exists m2 e2,
    0 <= m2 /\ Zdigits2 m2 <= 53 /\
    binary_round_aux prec emax s m e l =
      match m2 with
      | Z0 => S754_zero s
      | Zpos p =>
          if e2 <=? emax - prec then S754_finite s p e2 else S754_infinity s
      | Zneg _ => S754_nan
      end /\
    (forall K, -1074 <= K -> e <= K -> Zdigits2 m + e <= K ->
               e2 <= K /\ (0 < m2 -> Zdigits2 m2 + e2 <= K + 1)).
Proof.
  intros Hm. unfold binary_round_aux.
  destruct (shr_fexp_digits m e l Hm)
    as [mrs1 [e1 [E1 [He1 [Hm1 [_ Hmag1]]]]]].
  rewrite E1.
  set (m1 := round_nearest_even (shr_m mrs1) (loc_of_shr_record mrs1)).
  assert (0 <= m1 /\ Zdigits2 m1 <= Zdigits2 (shr_m mrs1) + 1) as [Hm1' Hd1].
  { subst m1.
    destruct (round_nearest_even_cases (shr_m mrs1) (loc_of_shr_record mrs1))
      as [-> | ->].
    - split; [lia|]. lia.
    - split; [lia|]. now apply Zdigits2_succ. }
  destruct (shr_fexp_digits m1 e1 loc_Exact Hm1')
    as [mrs2 [e2 [E2 [He2 [Hm2 [Hcan2 Hmag2]]]]]].
  rewrite E2.
  exists (shr_m mrs2), e2.
  split; [exact Hm2|]. split; [exact Hcan2|]. split; [reflexivity|].
  intros K HK HeK HdK.
  rewrite fexp_eq in He1, He2.
  assert (Zdigits2 m1 + e1 <= K + 1) as Hmag.
  { destruct (Z.eq_dec (shr_m mrs1) 0) as [Hz | Hnz].
    - rewrite Hz in Hd1. simpl in Hd1. lia.
    - assert (0 < shr_m mrs1) as Hpos by lia.
      specialize (Hmag1 Hpos). lia. }
  split; [lia|]. intros Hpos. specialize (Hmag2 Hpos). lia.
Qed.

Lemma small_mono (K K' : Z) (x : float) : K <= K' -> small K x -> small K' x.
Proof. destruct x; simpl; trivial; lia. Qed.

Lemma binary_round_aux_small (s : bool) (m e : Z) (l : location) (K : Z) :
  0 <= m -> -1074 <= K <= 971 -> e <= K -> Zdigits2 m + e <= K ->
  small (K + 1) (binary_round_aux prec emax s m e l).
Proof.
  intros Hm HK He Hd.
  destruct (binary_round_aux_cases s m e l Hm)
    as [m2 [e2 [Hm2 [_ [-> Hb]]]]].
  destruct (Hb K) as [He2 Hmag]; try lia.
  assert ((e2 <=? emax - prec) = true) as Hle
    by (apply Z.leb_le; change (emax - prec) with 971; lia).
  destruct m2 as [|p|p]; try lia.
  - exact I.
  - rewrite Hle. apply Hmag. lia.
Qed.

Lemma iter_xO (d p : positive) : Zpos (Pos.iter xO p d) = Zpos p * 2 ^ Zpos d.
Proof.
  induction d as [|d IH] using Pos.peano_ind.
  - simpl. lia.
  - rewrite Pos.iter_succ, Pos2Z.inj_xO, IH, Pos2Z.inj_succ.
    rewrite Z.pow_succ_r by lia. ring.
Qed.

Lemma shl_align_spec (mx : positive) (ex ex' : Z) :
  exists m' e',
    shl_align mx ex ex' = (m', e') /\ e' = Z.min ex ex' /\
    Zpos m' = Zpos mx * 2 ^ (ex - e').
Proof.
  unfold shl_align. destruct (ex' - ex) as [|d|d] eqn:Ed.
  - eexists _, _. split; [reflexivity|]. split; [lia|].
    replace (ex - ex) with 0 by lia. simpl. lia.
  - eexists _, _. split; [reflexivity|]. split; [lia|].
    replace (ex - ex) with 0 by lia. simpl. lia.
  - eexists _, _. split; [reflexivity|]. split; [lia|].
    rewrite iter_xO. f_equal. f_equal. lia.
Qed.

Lemma binary_round_small (s : bool) (p : positive) (e K : Z) :
  -1074 <= K <= 971 -> e <= K -> Zpos p < 2 ^ (K - e) ->
  small (K + 1) (binary_round prec emax s p e).
Proof.
  intros HK He Hp. unfold binary_round.
  destruct (shl_align_spec p e (fexp prec emax (Zpos (digits2_pos p) + e)))
    as [mz [ez [-> [Hez Hmz]]]].
  apply binary_round_aux_small; try lia.
  cut (Zdigits2 (Zpos mz) <= K - ez); [lia|].
  apply Zdigits2_le; [lia | lia |].
  rewrite Hmz. replace (K - ez) with ((K - e) + (e - ez)) by lia.
  rewrite Z.pow_add_r by lia.
  apply Z.mul_lt_mono_pos_r; [apply Z.pow_pos_nonneg; lia | exact Hp].
Qed.

(** *** Addition *)

Lemma small_lt_pow (K : Z) (s : bool) (m : positive) (e : Z) :
  small K (S754_finite s m e) -> e < K /\ Zpos m < 2 ^ (K - e).
Proof.
  unfold small. intros H. pose proof (Pos2Z.is_pos (digits2_pos m)).
  split; [lia|].
  apply Zdigits2_lt_pow; [lia | unfold Zdigits2; lia].
Qed.

Lemma aligned_lt_pow (K : Z) (s : bool) (m : positive) (e ez : Z) :
  small K (S754_finite s m e) -> ez <= e ->
  Zpos (fst (shl_align m e ez)) < 2 ^ (K - ez).
Proof.
  intros Hs Hez. apply small_lt_pow in Hs. destruct Hs as [He Hm].
  destruct (shl_align_spec m e ez) as [m' [e' [-> [He' Hm']]]].
  cbn [fst]. rewrite Hm'.
  replace e' with ez by lia.
  replace (K - ez) with ((K - e) + (e - ez)) by lia.
  rewrite Z.pow_add_r by lia.
  apply Z.mul_lt_mono_pos_r; [apply Z.pow_pos_nonneg; lia | exact Hm].
Qed.

(** The sum of two small floats is finite and small. *)
Lemma add_small (K : Z) (x y : float) :
  -1074 <= K <= 970 -> small K x -> small K y -> small (K + 2) (add x y).
Proof.
  intros HK Hx Hy.
  destruct x as [sx | sx | | sx mx ex]; try contradiction;
    destruct y as [sy | sy | | sy my ey]; try contradiction.
  - destruct sx, sy; exact I.
  - apply (small_mono K); [lia | exact Hy].
  - apply (small_mono K); [lia | exact Hx].
  - unfold add, SFadd.
    set (ez := Z.min ex ey).
    pose proof (aligned_lt_pow K sx mx ex ez Hx ltac:(lia)) as Hax.
    pose proof (aligned_lt_pow K sy my ey ez Hy ltac:(lia)) as Hay.
    set (ax := fst (shl_align mx ex ez)) in *.
    set (ay := fst (shl_align my ey ez)) in *.
    apply small_lt_pow in Hx. destruct Hx as [Hex _].
    assert (Z.abs (cond_Zopp sx (Zpos ax) + cond_Zopp sy (Zpos ay))
            < 2 ^ (K + 1 - ez)) as Habs.
    { replace (K + 1 - ez) with (1 + (K - ez)) by lia.
      rewrite Z.pow_add_r by lia. change (2 ^ 1) with 2.
      destruct sx, sy; simpl cond_Zopp; lia. }
    replace (K + 2) with ((K + 1) + 1) by lia.
    destruct (cond_Zopp sx (Zpos ax) + cond_Zopp sy (Zpos ay))
      as [|p|p]; cbn [binary_normalize].
    + exact I.
    + apply binary_round_small; lia.
    + apply binary_round_small; lia.
Qed.

(** *** Division and minimum *)

Lemma binary_round_aux_nonneg (m e : Z) (l : location) :
  0 <= m -> nonneg_canonical (binary_round_aux prec emax false m e l).
Proof.
  intros Hm.
  destruct (binary_round_aux_cases false m e l Hm)
    as [m2 [e2 [Hm2 [Hcan [-> _]]]]].
  destruct m2 as [|p|p]; try lia.
  - exact I.
  - destruct (e2 <=? emax - prec); simpl; auto.
Qed.

Lemma of_int_10 : of_int 10 = S754_finite false 5629499534213120 (-49).
Proof. reflexivity. Qed.

Lemma of_int_4 : of_int 4 = S754_finite false 4503599627370496 (-50).
Proof. reflexivity. Qed.

Lemma div_10_nonneg (x : float) :
  SFleb zero x = true -> nonneg_canonical (div x (of_int 10)).
Proof.
  rewrite of_int_10. intros Hx.
  destruct x as [sx | sx | | sx mx ex]; try discriminate.
  - exact I.
  - destruct sx; [discriminate | reflexivity].
  - destruct sx; [discriminate|].
    unfold div, SFdiv, SFdiv_core_binary. cbn [xorb].
    match goal with
    | |- context [Z.div_eucl ?a ?b] =>
        pose proof (Z.div_pos a b) as Hq; unfold Z.div in Hq;
        destruct (Z.div_eucl a b) as [q r] eqn:Eq';
        assert (0 <= a) as Ha
    end.
    { match goal with
      | |- 0 <= match ?n with _ => _ end => destruct n
      end; try lia. apply Z.shiftl_nonneg. lia. }
    apply binary_round_aux_nonneg. apply Hq; lia.
Qed.

Lemma min2_4_small (q : float) :
  nonneg_canonical q -> small 3 (min2 q (of_int 4)).
Proof.
  rewrite of_int_4. unfold min2, ltb, SFltb.
  assert (small 3 (S754_finite false 4503599627370496 (-50))) as H4
    by (vm_compute; discriminate).
  destruct q as [s | s | | s m e]; cbn [nonneg_canonical SFcompare];
    try contradiction.
  - trivial.
  - intros ->. exact H4.
  - intros [-> Hd].
    destruct (Z.compare_spec (-50) e) as [He | He | He].
    + subst e.
      destruct (Pos.compare_cont Eq 4503599627370496 m);
        try exact H4; unfold small; lia.
    + exact H4.
    + unfold small. lia.
Qed.

(** *** Rounding to an integer *)

Lemma round_small (K : Z) (x : float) :
  small K x -> exists z, round x = inr z.
Proof.
  destruct x as [s | s | | s m e]; simpl; try contradiction; intros _.
  - eexists. reflexivity.
  - destruct (0 <=? e); eexists; reflexivity.
Qed.

End FloatFacts.

(** ** Scorer *)

Section ScorerFacts.
Import pyfloat.

Lemma smallb_sound (K : Z) (x : float) : smallb K x = true -> small K x.
Proof.
  destruct x; unfold smallb, small; try discriminate; trivial.
  apply Z.leb_le.
Qed.

Lemma fixed_part_small (b d : Z) :
  0 <= b <= 20 -> 0 <= d <= 4 -> small 4 (fixed_part b d).
Proof.
  intros Hb Hd. apply smallb_sound.
  assert (forallb (fun i => forallb (fun j =>
            smallb 4 (fixed_part (Z.of_nat i) (Z.of_nat j))) (seq 0 5))
            (seq 0 21) = true) as Htable by (vm_compute; reflexivity).
  rewrite forallb_forall in Htable.
  specialize (Htable (Z.to_nat b)). rewrite forallb_forall in Htable.
  specialize (Htable ltac:(apply in_seq; lia) (Z.to_nat d)
                     ltac:(apply in_seq; lia)).
  now rewrite !Z2Nat.id in Htable by lia.
Qed.

Lemma diversity_range (v : ValidationResult) : 0 <= diversity v <= 4.
Proof.
  unfold diversity.
  destruct (upper_ok v), (lower_ok v), (digit_ok v), (symbol_ok v);
    vm_compute; split; discriminate.
Qed.

Lemma penalty_small (p : str) : small 2 (of_int (repetition_penalty p)).
Proof.
  unfold repetition_penalty.
  destruct (any _ _); apply smallb_sound; reflexivity.
Qed.

Lemma character_set_size_ge (p : str) : 26 <= _character_set_size p.
Proof.
  unfold _character_set_size. cbv zeta.
  change (len LOWERCASE) with 26. apply Z.le_max_r.
Qed.

Section Log2.
Variable log2 : Z -> float.
Hypothesis log2_nonneg : forall n, 1 <= n -> SFleb zero (log2 n) = true.

Lemma entropy_returns (p : str) :
  exists e, _entropy log2 p = inr e /\ SFleb zero e = true.
Proof.
  unfold _entropy. cbv zeta. destruct p as [|c p].
  - exists zero. split; reflexivity.
  - set (n := _character_set_size (c :: p) ^ len (c :: p)).
    assert (1 <= n) as Hn.
    { pose proof (character_set_size_ge (c :: p)).
      assert (0 < n); [|lia].
      apply Z.pow_pos_nonneg; [lia | unfold len; lia]. }
    exists (log2 n). split; [|now apply log2_nonneg].
    unfold math_log2.
    replace (n <=? 0) with false by (symmetry; apply Z.leb_gt; lia).
    reflexivity.
Qed.

Lemma entropy_score_returns (p : str) :
  exists es, entropy_score log2 p = inr es /\ small 3 es.
Proof.
  destruct (entropy_returns p) as [e [He Hnn]].
  exists (min2 (div e (of_int 10)) (of_int 4)). split.
  - unfold entropy_score. rewrite He. reflexivity.
  - apply min2_4_small, div_10_nonneg, Hnn.
Qed.

Lemma raw_score_returns (p : str) :
  exists raw, raw_score log2 p = inr raw /\ small 8 raw.
Proof.
  destruct (entropy_score_returns p) as [es [Hes Hsmall]].
  eexists. split.
  - unfold raw_score. cbv zeta. rewrite Hes. reflexivity.
  - change 8 with (6 + 2). apply add_small; [lia | |].
    + change 6 with (4 + 2). apply add_small; [lia | |].
      * apply fixed_part_small; [unfold len; lia | apply diversity_range].
      * apply (small_mono 3); [lia | exact Hsmall].
    + apply (small_mono 2); [lia | apply penalty_small].
Qed.

(** The scorer returns, and its score is the rounded raw score clamped
    to [0, 10]. *)
Lemma score_returns (p : str) :
  exists rounded,
    score log2 p =
      inr {| StrengthResult.score := Z.max 0 (Z.min 10 rounded);
             StrengthResult.label :=
               _label_from_score (Z.max 0 (Z.min 10 rounded)) |}.
Proof.
  destruct (raw_score_returns p) as [raw [Hraw Hsmall]].
  destruct (round_small 8 raw Hsmall) as [z Hz].
  exists z. unfold score. rewrite Hraw. cbn [rbind]. rewrite Hz.
  reflexivity.
Qed.

End Log2.

Lemma label_bands (z : Z) :
  (0 <= z <= 3 -> _label_from_score z = "weak"%string) /\
  (4 <= z <= 6 -> _label_from_score z = "medium"%string) /\
  (7 <= z <= 10 -> _label_from_score z = "strong"%string).
Proof.
  unfold _label_from_score, _LABELS, in_range. cbn [find fst snd].
  repeat split; intros H;
    destruct (Z.leb_spec 0 z), (Z.ltb_spec z 4), (Z.leb_spec 4 z),
      (Z.ltb_spec z 7), (Z.leb_spec 7 z), (Z.ltb_spec z 11);
    cbn; try reflexivity; lia.
Qed.

End ScorerFacts.

Lemma nonneg_canonical_leb (x : pyfloat.float) :
  nonneg_canonical x -> SFleb pyfloat.zero x = true.
Proof.
  destruct x as [s | s | | s m e]; simpl; try contradiction; trivial.
  - now intros ->.
  - now intros [-> _].
Qed.

Lemma log2_floor_nonneg (n : Z) :
  1 <= n -> SFleb pyfloat.zero (log2_floor n) = true.
Proof.
  intros _. unfold log2_floor, pyfloat.of_int.
  pose proof (Z.log2_nonneg n) as H.
  destruct (Z.log2 n) as [|p|p]; try lia; [reflexivity|].
  cbn [binary_normalize]. unfold binary_round.
  destruct (shl_align p 0 _) as [mz ez].
  apply nonneg_canonical_leb, binary_round_aux_nonneg. lia.
Qed.

Example score_Ab1 :
  score log2_floor (codes "Ab1!") =
    inr {| StrengthResult.score := 9; StrengthResult.label := "strong" |}.
Proof. vm_compute. reflexivity. Qed.

Example score_aaaa :
  score log2_floor (codes "aaaa") =
    inr {| StrengthResult.score := 2; StrengthResult.label := "weak" |}.
Proof. vm_compute. reflexivity. Qed.

(** C4: the scorer returns for every password; its score is an integer of
    [0, 10], and its label is the one of the score's band: "weak" for 0-3,
    "medium" for 4-6, "strong" for 7-10, never "unknown".  [math.log2] is
    only assumed to be non-negative on the integers from 1 on. *)
Theorem score_range_and_label (log2 : Z -> pyfloat.float) (p : str) :
  (forall n, 1 <= n -> SFleb pyfloat.zero (log2 n) = true) ->
  exists r,
    score log2 p = inr r /\
    0 <= StrengthResult.score r <= 10 /\
    StrengthResult.label r = _label_from_score (StrengthResult.score r) /\
    (0 <= StrengthResult.score r <= 3 ->
       StrengthResult.label r = "weak"%string) /\
    (4 <= StrengthResult.score r <= 6 ->
       StrengthResult.label r = "medium"%string) /\
    (7 <= StrengthResult.score r <= 10 ->
       StrengthResult.label r = "strong"%string) /\
    StrengthResult.label r <> "unknown"%string.
Proof.
  intros Hlog2. destruct (score_returns log2 Hlog2 p) as [z Hz].
  eexists. split; [exact Hz|]. cbn [StrengthResult.score StrengthResult.label].
  set (b := Z.max 0 (Z.min 10 z)).
  assert (0 <= b <= 10) as Hb by (subst b; lia).
  destruct (label_bands b) as [Hweak [Hmedium Hstrong]].
  repeat split; trivial; try lia.
  destruct (Z_le_gt_dec b 3); [rewrite Hweak by lia; discriminate|].
  destruct (Z_le_gt_dec b 6); [rewrite Hmedium by lia; discriminate|].
  rewrite Hstrong by lia; discriminate.
Qed.

Lemma score_range_and_label_witness :
  exists r,
    score log2_floor (codes "Ab1!") = inr r /\
    0 <= StrengthResult.score r <= 10 /\
    StrengthResult.label r = _label_from_score (StrengthResult.score r) /\
    (0 <= StrengthResult.score r <= 3 ->
       StrengthResult.label r = "weak"%string) /\
    (4 <= StrengthResult.score r <= 6 ->
       StrengthResult.label r = "medium"%string) /\
    (7 <= StrengthResult.score r <= 10 ->
       StrengthResult.label r = "strong"%string) /\
    StrengthResult.label r <> "unknown"%string.
Proof.
  apply (score_range_and_label log2_floor (codes "Ab1!")).
  exact log2_floor_nonneg.
Defined.

(** C5: on the empty password the scorer returns score 0 with label
    "weak", whatever [math.log2] is: the entropy is 0 without a call of the
    logarithm, the diversity is 0, the length contribution is 0 and there
    is no repetition penalty. *)
Theorem score_empty (log2 : Z -> pyfloat.float) :
  score log2 [] =
    inr {| StrengthResult.score := 0; StrengthResult.label := "weak" |} /\
  _entropy log2 [] = inr pyfloat.zero /\
  entropy_score log2 [] = inr pyfloat.zero /\
  diversity (validate_password []) = 0 /\
  base [] = pyfloat.zero /\
  repetition_penalty [] = 0.
Proof. repeat split. Qed.

(** ** Orchestration and the request contract *)

(** C6, amended: for every non-empty password [p] supplied by the caller,
    [full_flow] returns [p] itself with [validate_password p] and
    [score p], and draws nothing from the random source. *)
Theorem full_flow_supplied_password
    (log2 : Z -> pyfloat.float) (p : str) (length : option Z) (g : rng) :
  (forall n, 1 <= n -> SFleb pyfloat.zero (log2 n) = true) ->
  p <> [] ->
  exists s,
    score log2 p = inr s /\
    full_flow log2 (Some p) length g = (inr (p, validate_password p, s), g).
Proof.
  intros Hlog2 Hp. destruct (score_returns log2 Hlog2 p) as [z Hz].
  eexists. split; [exact Hz|].
  destruct p as [|c p]; [congruence|].
  unfold full_flow, bind, lift, ret. cbn [truthy_str]. rewrite Hz.
  reflexivity.
Qed.

Lemma full_flow_supplied_password_witness :
  exists s,
    score log2_floor (codes "Ab1!") = inr s /\
    full_flow log2_floor (Some (codes "Ab1!")) None tape0 =
      (inr (codes "Ab1!", validate_password (codes "Ab1!"), s), tape0).
Proof.
  apply (full_flow_supplied_password log2_floor (codes "Ab1!") None tape0).
  - exact log2_floor_nonneg.
  - vm_compute. discriminate.
Defined.

(** C6 as stated fails on the empty password: [full_flow] does not return
    it, it returns a generated password. *)
Lemma full_flow_empty_password_not_returned :
  ~ (exists s g',
       full_flow log2_floor (Some []) None tape0 =
         (inr ([], validate_password [], s), g')).
Proof.
  intros [s [g' H]].
  apply (f_equal fst) in H. vm_compute in H. discriminate.
Qed.

(** C7: a request to the combined operation without password and without
    length is refused when the request object is built: the [ValueError]
    of the contract check in [model_post_init] comes out of the
    construction as a [ValidationError]; whatever handler would follow is
    not run, so nothing is generated, validated or scored and the random
    source is untouched. *)
Theorem full_request_requires_password_or_length :
  let err :=
    ValidationError
      "Value error, Provide either a password or a length for full analysis" in
  FullRequest.model_post_init
    {| FullRequest.password := None; FullRequest.length := None |} =
    inl (ValueError
           "Provide either a password or a length for full analysis") /\
  FullRequest.init None None = inl err /\
  (forall (A : Type) (handler : FullRequest.t -> M A) (g : rng),
     bind (lift (FullRequest.init None None)) handler g = (inl err, g)) /\
  (forall (log2 : Z -> pyfloat.float) (g : rng),
     post_full log2 None None g = (inl err, g)).
Proof. repeat split. Qed.

(** C9: with the empty string as password, [full_flow] behaves as without
    a password: for every length [L] the generator accepts it generates a
    password of length [L] and returns it with that password's validation
    and strength. *)
Theorem full_flow_empty_password_generates
    (log2 : Z -> pyfloat.float) (L : Z) (g : rng) :
  (forall n, 1 <= n -> SFleb pyfloat.zero (log2 n) = true) ->
  4 <= L <= max_length get_policy ->
  exists pwd g' s,
    returns (generate_password (Some L)) g pwd g' /\
    len pwd = L /\
    score log2 pwd = inr s /\
    full_flow log2 (Some []) (Some L) g =
      (inr (pwd, validate_password pwd, s), g') /\
    full_flow log2 (Some []) (Some L) g = full_flow log2 None (Some L) g.
Proof.
  intros Hlog2 HL.
  assert (effective_length (Some L) = L) as HE
    by (apply effective_length_Some; lia).
  destruct (generate_password_returns (Some L) g)
    as [pwd [g' [R [Hlen _]]]]; [rewrite HE; exact HL|].
  rewrite HE in Hlen.
  destruct (score_returns log2 Hlog2 pwd) as [z Hz].
  exists pwd, g'. eexists. split; [exact R|]. split; [exact Hlen|].
  split; [exact Hz|]. split; [|reflexivity].
  unfold full_flow. cbn [truthy_str].
  eapply returns_bind; [exact R|].
  eapply returns_bind; [unfold returns, lift; rewrite Hz; reflexivity|].
  apply returns_ret.
Qed.

Lemma full_flow_empty_password_generates_witness :
  exists pwd g' s,
    returns (generate_password (Some 20)) tape0 pwd g' /\
    len pwd = 20 /\
    score log2_floor pwd = inr s /\
    full_flow log2_floor (Some []) (Some 20) tape0 =
      (inr (pwd, validate_password pwd, s), g') /\
    full_flow log2_floor (Some []) (Some 20) tape0 =
      full_flow log2_floor None (Some 20) tape0.
Proof.
  apply (full_flow_empty_password_generates log2_floor 20 tape0).
  - exact log2_floor_nonneg.
  - vm_compute. split; discriminate.
Defined.

(** * Further properties of the code *)

(** ** Generator: what a run returns, costs and refuses *)

Lemma returns_functional {A : Type} (m : M A) g a1 g1 a2 g2 :
  returns m g a1 g1 -> returns m g a2 g2 -> a1 = a2 /\ g1 = g2.
Proof. unfold returns. intros H1 H2. rewrite H1 in H2. now inversion H2. Qed.

Lemma returns_bind_inv {A B : Type} (m : M A) (k : A -> M B) g b g2 :
  returns (bind m k) g b g2 ->
  exists a g1, returns m g a g1 /\ returns (k a) g1 b g2.
Proof.
  unfold returns, bind. destruct (m g) as [[e | a] g1]; intros H.
  - discriminate.
  - exists a, g1. split; [reflexivity | exact H].
Qed.

Lemma returns_ret_inv {A : Type} (a b : A) g g' :
  returns (ret a) g b g' -> b = a /\ g' = g.
Proof. unfold returns, ret. intros H. now inversion H. Qed.

Lemma returns_getitem_inv {A : Type} (x : list A) (i : nat) g a g' :
  returns (getitem x i) g a g' -> g' = g.
Proof.
  unfold returns, getitem. destruct (nth_error x i); intros H;
    now inversion H.
Qed.

Lemma returns_setitem_inv {A : Type} (x : list A) (i : nat) (v : A) g y g' :
  returns (setitem x i v) g y g' -> g' = g.
Proof.
  unfold returns, setitem. destruct (i <? List.length x)%nat; intros H;
    now inversion H.
Qed.

Lemma returns_randbelow_inv (n : nat) g j g' :
  returns (randbelow n) g j g' -> forall k, g' k = g (S k).
Proof. unfold returns, randbelow. intros H k. now inversion H. Qed.

Lemma returns_choice_inv {A : Type} (seq : list A) g a g' :
  returns (choice seq) g a g' -> forall k, g' k = g (S k).
Proof.
  destruct seq as [|b t]; [discriminate|]. unfold choice. intros H k.
  apply returns_bind_inv in H. destruct H as [i [g1 [Hi Hg]]].
  apply returns_getitem_inv in Hg. subst g'.
  now apply (returns_randbelow_inv _ _ _ _ Hi).
Qed.

Lemma returns_pick_n_inv (characters : str) (n : nat) :
  forall g s g', returns (pick_n characters n) g s g' ->
                 forall k, g' k = g (k + n)%nat.
Proof.
  induction n as [|n IH]; intros g s g' H k; cbn [pick_n] in H.
  - apply returns_ret_inv in H. destruct H as [_ ->]. f_equal. lia.
  - apply returns_bind_inv in H. destruct H as [c [g1 [Hc H]]].
    apply returns_bind_inv in H. destruct H as [rest [g2 [Hr H]]].
    apply returns_ret_inv in H. destruct H as [_ ->].
    rewrite (IH _ _ _ Hr k), (returns_choice_inv _ _ _ _ Hc).
    f_equal. lia.
Qed.

Lemma returns_shuffle_from_inv {A : Type} (i : nat) :
  forall (x : list A) g y g', returns (shuffle_from i x) g y g' ->
                              forall k, g' k = g (k + i)%nat.
Proof.
  induction i as [|i IH]; intros x g y g' H k; cbn [shuffle_from] in H.
  - apply returns_ret_inv in H. destruct H as [_ ->]. f_equal. lia.
  - apply returns_bind_inv in H. destruct H as [j [g1 [Hj H]]].
    apply returns_bind_inv in H. destruct H as [xj [g2 [H2 H]]].
    apply returns_bind_inv in H. destruct H as [xi [g3 [H3 H]]].
    apply returns_bind_inv in H. destruct H as [x1 [g4 [H4 H]]].
    apply returns_bind_inv in H. destruct H as [x2 [g5 [H5 H]]].
    apply returns_getitem_inv in H2, H3.
    apply returns_setitem_inv in H4, H5. subst g2 g3 g4 g5.
    rewrite (IH _ _ _ _ H k), (returns_randbelow_inv _ _ _ _ Hj).
    f_equal. lia.
Qed.

(** X5: the shuffle never raises; it returns a permutation of its argument
    and draws one number for each position but the first. *)
Theorem shuffle_permutes {A : Type} (x : list A) (g : rng) :
  exists y g',
    returns (shuffle x) g y g' /\
    Permutation y x /\
    List.length y = List.length x /\
    forall k, g' k = g (k + (List.length x - 1))%nat.
Proof.
  destruct (returns_shuffle x g) as [y [g' [R P]]].
  exists y, g'. split; [exact R|]. split; [exact P|].
  split; [now apply Permutation_length|].
  exact (returns_shuffle_from_inv _ _ _ _ _ R).
Qed.

(** X6: from a non-empty alphabet [_pick] returns exactly [count]
    characters of the alphabet (none when [count] is not positive), at the
    price of one draw each. *)
Theorem pick_returns (characters : str) (count : Z) (g : rng) :
  characters <> [] ->
  exists s g',
    returns (_pick characters count) g s g' /\
    len s = Z.max 0 count /\
    Forall (fun c => In c characters) s /\
    forall k, g' k = g (k + Z.to_nat count)%nat.
Proof.
  intros Hne. unfold _pick.
  destruct (returns_pick_n characters (Z.to_nat count) Hne g)
    as [s [g' [R [Hlen Hall]]]].
  exists s, g'. split; [exact R|]. split; [unfold len; lia|].
  split; [exact Hall|]. exact (returns_pick_n_inv _ _ _ _ _ R).
Qed.

Lemma pick_returns_witness :
  exists s g',
    returns (_pick DIGITS 3) tape0 s g' /\
    len s = Z.max 0 3 /\
    Forall (fun c => In c DIGITS) s /\
    forall k, g' k = tape0 (k + Z.to_nat 3)%nat.
Proof.
  apply (pick_returns DIGITS 3 tape0). vm_compute. discriminate.
Defined.

(** X7: asked for at least one character of an empty alphabet, [_pick]
    raises the [IndexError] of [secrets.choice] and draws nothing. *)
Theorem pick_empty_alphabet (count : Z) (g : rng) :
  0 < count ->
  _pick [] count g =
    (inl (IndexError "Cannot choose from an empty sequence"), g).
Proof.
  intros H. unfold _pick.
  destruct (Z.to_nat count) as [|n] eqn:E; [lia|]. reflexivity.
Qed.

Lemma pick_empty_alphabet_witness :
  _pick [] 1 tape0 =
    (inl (IndexError "Cannot choose from an empty sequence"), tape0).
Proof. apply (pick_empty_alphabet 1 tape0). lia. Defined.

Lemma generate_password_in_bounds (length : option Z) g pwd g' :
  returns (generate_password length) g pwd g' ->
  4 <= effective_length length <= max_length get_policy.
Proof.
  intros R.
  destruct (Z_lt_dec (effective_length length) 4) as [Hlo|Hlo].
  - destruct (generate_password_raises length g (or_introl Hlo)) as [msg E].
    unfold returns in R. congruence.
  - destruct (Z_lt_dec (max_length get_policy) (effective_length length))
      as [Hhi|Hhi]; [|lia].
    destruct (generate_password_raises length g (or_intror Hhi)) as [msg E].
    unfold returns in R. congruence.
Qed.

(** X1: whatever the argument, a password the generator returns is made of
    characters of [FULL_SET], its length is the effective length, and that
    length lies between 4 and the policy's maximum. *)
Theorem generate_password_alphabet (length : option Z) g pwd g' :
  returns (generate_password length) g pwd g' ->
  Forall (fun c => In c FULL_SET) pwd /\
  len pwd = effective_length length /\
  4 <= len pwd <= max_length get_policy.
Proof.
  intros R. pose proof (generate_password_in_bounds _ _ _ _ R) as Hb.
  destruct (generate_password_returns length g Hb)
    as [pwd' [g'' [R' [Hlen [_ [_ [_ [_ Hall]]]]]]]].
  destruct (returns_functional _ _ _ _ _ _ R R') as [-> _].
  split; [exact Hall|]. split; [exact Hlen|]. now rewrite Hlen.
Qed.

Lemma generate_password_alphabet_witness :
  Forall (fun c => In c FULL_SET) (codes "f7mtDk0]") /\
  len (codes "f7mtDk0]") = effective_length (Some 8) /\
  4 <= len (codes "f7mtDk0]") <= max_length get_policy.
Proof.
  apply (generate_password_alphabet (Some 8) tape0 (codes "f7mtDk0]")
           (snd (generate_password (Some 8) tape0))).
  vm_compute. reflexivity.
Defined.

Lemma returns_pick_n_length (characters : str) (n : nat) :
  forall g s g', returns (pick_n characters n) g s g' -> List.length s = n.
Proof.
  induction n as [|n IH]; intros g s g' H; cbn [pick_n] in H.
  - apply returns_ret_inv in H. destruct H as [-> _]. reflexivity.
  - apply returns_bind_inv in H. destruct H as [c [g1 [Hc H]]].
    apply returns_bind_inv in H. destruct H as [rest [g2 [Hr H]]].
    apply returns_ret_inv in H. destruct H as [-> _].
    simpl. f_equal. exact (IH _ _ _ Hr).
Qed.

(** X4: a password of [n] characters costs exactly [2 n - 1] draws from
    the random source: one for each character and [n - 1] for the
    shuffle. *)
Theorem generate_password_draws (length : option Z) g pwd g' :
  returns (generate_password length) g pwd g' ->
  forall k, g' k = g (k + (2 * Z.to_nat (effective_length length) - 1))%nat.
Proof.
  intros R k. pose proof (generate_password_in_bounds _ _ _ _ R) as [Hlo Hhi].
  unfold returns, generate_password in R. cbv zeta in R.
  fold (effective_length length) in R.
  replace (effective_length length <? 4) with false in R
    by (symmetry; apply Z.ltb_ge; lia).
  replace (effective_length length >? max_length get_policy) with false in R
    by (symmetry; rewrite Z.gtb_ltb; apply Z.ltb_ge; lia).
  fold (returns (A := str)) in R.
  apply returns_bind_inv in R. destruct R as [cu [g1 [H1 R]]].
  apply returns_bind_inv in R. destruct R as [cl [g2 [H2 R]]].
  apply returns_bind_inv in R. destruct R as [cd [g3 [H3 R]]].
  apply returns_bind_inv in R. destruct R as [cs [g4 [H4 R]]].
  change (len [cu; cl; cd; cs]) with 4 in R.
  replace (effective_length length <? 4) with false in R
    by (symmetry; apply Z.ltb_ge; lia).
  apply returns_bind_inv in R. destruct R as [rest [g5 [H5 R]]].
  apply returns_bind_inv in R. destruct R as [y [g6 [H6 R]]].
  apply returns_ret_inv in R. destruct R as [_ ->].
  pose proof (returns_pick_n_length _ _ _ _ _ H5) as Hlen.
  unfold shuffle in H6.
  rewrite (returns_shuffle_from_inv _ _ _ _ _ H6 k).
  rewrite (returns_pick_n_inv _ _ _ _ _ H5).
  rewrite (returns_choice_inv _ _ _ _ H4), (returns_choice_inv _ _ _ _ H3),
    (returns_choice_inv _ _ _ _ H2), (returns_choice_inv _ _ _ _ H1).
  f_equal. rewrite length_app, Hlen. cbn [List.length]. lia.
Qed.

Lemma generate_password_draws_witness :
  snd (generate_password (Some 8) tape0) 5%nat =
  tape0 (5 + (2 * Z.to_nat (effective_length (Some 8%Z)) - 1))%nat.
Proof.
  apply (generate_password_draws (Some 8) tape0 (codes "f7mtDk0]")
           (snd (generate_password (Some 8) tape0))).
  vm_compute. reflexivity.
Defined.

(** X2: when the effective length is within the validator's bounds, in
    particular when the length is omitted, the generator returns a password
    that passes every check of the validator. *)
Theorem generated_password_validates (length : option Z) (g : rng) :
  min_length get_policy <= effective_length length <= max_length get_policy ->
  exists pwd g',
    returns (generate_password length) g pwd g' /\
    overall_result (validate_password pwd) = true.
Proof.
  intros Hb.
  destruct (generate_password_returns length g)
    as [pwd [g' [R [Hlen [Hu [Hl [Hd Hs]]]]]]].
  { change (min_length get_policy) with 12 in Hb. lia. }
  destruct Hs as [Hs _].
  exists pwd, g'. split; [exact R|].
  unfold overall_result. cbn [forallb validate_password length_ok
    upper_ok lower_ok digit_ok symbol_ok].
  rewrite Hu, Hl, Hd, Hs.
  replace (check_length pwd) with true; [reflexivity|].
  symmetry. apply check_length_spec. now rewrite Hlen.
Qed.

Lemma generated_password_validates_witness :
  exists pwd g',
    returns (generate_password None) tape0 pwd g' /\
    overall_result (validate_password pwd) = true.
Proof.
  apply (generated_password_validates None tape0).
  vm_compute. split; discriminate.
Defined.

(** X3: the generator fails in one way only: with a [ValueError], raised
    before anything is drawn, and only when the effective length is below
    4 or above the policy's maximum.  It never fails with an index error
    of the shuffle or of a choice. *)
Theorem generate_password_failure (length : option Z) g e g' :
  generate_password length g = (inl e, g') ->
  g' = g /\
  (exists msg, e = ValueError msg) /\
  (effective_length length < 4 \/
   max_length get_policy < effective_length length).
Proof.
  intros H.
  assert (effective_length length < 4 \/
          max_length get_policy < effective_length length) as Hout.
  { apply (generate_password_raises_iff length g). eauto. }
  destruct (generate_password_raises length g Hout) as [msg E].
  rewrite E in H. inversion H. subst.
  split; [reflexivity|]. split; [eauto | exact Hout].
Qed.

Lemma generate_password_failure_witness :
  tape0 = tape0 /\
  (exists msg,
     ValueError "Password length must be at least 4 to satisfy constraints"
     = ValueError msg) /\
  (effective_length (Some 3) < 4 \/
   max_length get_policy < effective_length (Some 3)).
Proof.
  apply (generate_password_failure (Some 3) tape0). reflexivity.
Defined.

(** ** Validator: what the flags depend on *)

Lemma any_app {A : Type} (f : A -> bool) (s t : list A) :
  any f (s ++ t) = any f s || any f t.
Proof. unfold any. apply existsb_app. Qed.

Lemma validate_password_perm (p q : str) :
  Permutation p q -> validate_password p = validate_password q.
Proof.
  intros HP. unfold validate_password, check_length, check_upper,
    check_lower, check_digit, check_symbol, len.
  rewrite (Permutation_length HP).
  rewrite !(any_Permutation _ p q HP). reflexivity.
Qed.

(** X8: the validator does not look at the order of the characters:
    rearranging a password leaves every flag as it is. *)
Theorem validate_password_Permutation (p q : str) :
  Permutation p q -> validate_password p = validate_password q.
Proof. exact (validate_password_perm p q). Qed.

Lemma validate_password_Permutation_witness :
  validate_password (codes "Ab1!") = validate_password (codes "!1bA").
Proof.
  apply (validate_password_Permutation (codes "Ab1!") (codes "!1bA")).
  vm_compute.
  apply (perm_trans (l' := [98%N; 49%N; 33%N; 65%N])).
  - apply Permutation_cons_append.
  - apply (perm_trans (l' := [49%N; 33%N; 98%N; 65%N])).
    + apply perm_trans with (l' := [98%N; 33%N; 49%N; 65%N]);
        [apply perm_skip, perm_swap|].
      apply perm_trans with (l' := [33%N; 98%N; 49%N; 65%N]);
        [apply perm_swap|].
      apply perm_trans with (l' := [33%N; 49%N; 98%N; 65%N]);
        [apply perm_skip, perm_swap|]. apply perm_swap.
    + apply perm_swap.
Defined.

(** X9: a class flag of a concatenation is the disjunction of the flags of
    the parts: appending characters never clears a class flag. *)
Theorem validate_password_app (p q : str) :
  let v := validate_password (p ++ q) in
  upper_ok v = upper_ok (validate_password p) || upper_ok (validate_password q) /\
  lower_ok v = lower_ok (validate_password p) || lower_ok (validate_password q) /\
  digit_ok v = digit_ok (validate_password p) || digit_ok (validate_password q) /\
  symbol_ok v =
    symbol_ok (validate_password p) || symbol_ok (validate_password q).
Proof. cbv zeta. repeat split; apply any_app. Qed.

Lemma class_disjoint_neq (a b : str) (x y : char) :
  disjoint a b -> In x a -> In y b -> x <> y.
Proof. intros Hd Hx Hy ->. exact (Hd y Hx Hy). Qed.

(** X10: a password that passes the validator has between [min_length]
    and [max_length] characters, and among them four different ones, one
    of each class. *)
Theorem valid_password_content (p : str) :
  overall_result (validate_password p) = true ->
  min_length get_policy <= len p <= max_length get_policy /\
  exists cu cl cd cs,
    (In cu p /\ In cu UPPERCASE) /\ (In cl p /\ In cl LOWERCASE) /\
    (In cd p /\ In cd DIGITS) /\ (In cs p /\ In cs SYMBOLS) /\
    NoDup [cu; cl; cd; cs].
Proof.
  unfold overall_result. cbn [forallb validate_password length_ok upper_ok
    lower_ok digit_ok symbol_ok].
  rewrite !andb_true_iff. intros [Hlen [Hu [Hl [Hd [Hs _]]]]].
  split; [now apply check_length_spec|].
  apply any_class_In in Hu, Hl, Hd, Hs.
  destruct Hu as [cu [Hu1 Hu2]]. destruct Hl as [cl [Hl1 Hl2]].
  destruct Hd as [cd [Hd1 Hd2]]. destruct Hs as [cs [Hs1 Hs2]].
  exists cu, cl, cd, cs. repeat split; trivial.
  assert (disjoint UPPERCASE LOWERCASE) as D1
    by (apply disjointb_sound; vm_compute; reflexivity).
  assert (disjoint UPPERCASE DIGITS) as D2
    by (apply disjointb_sound; vm_compute; reflexivity).
  assert (disjoint UPPERCASE SYMBOLS) as D3
    by (apply disjointb_sound; vm_compute; reflexivity).
  assert (disjoint LOWERCASE DIGITS) as D4
    by (apply disjointb_sound; vm_compute; reflexivity).
  assert (disjoint LOWERCASE SYMBOLS) as D5
    by (apply disjointb_sound; vm_compute; reflexivity).
  assert (disjoint DIGITS SYMBOLS) as D6
    by (apply disjointb_sound; vm_compute; reflexivity).
  pose proof (class_disjoint_neq _ _ _ _ D1 Hu2 Hl2).
  pose proof (class_disjoint_neq _ _ _ _ D2 Hu2 Hd2).
  pose proof (class_disjoint_neq _ _ _ _ D3 Hu2 Hs2).
  pose proof (class_disjoint_neq _ _ _ _ D4 Hl2 Hd2).
  pose proof (class_disjoint_neq _ _ _ _ D5 Hl2 Hs2).
  pose proof (class_disjoint_neq _ _ _ _ D6 Hd2 Hs2).
  repeat constructor; simpl; intuition congruence.
Qed.

Lemma valid_password_content_witness :
  min_length get_policy <= len (codes "Tr0ub4dor&3xYz")
    <= max_length get_policy /\
  exists cu cl cd cs,
    (In cu (codes "Tr0ub4dor&3xYz") /\ In cu UPPERCASE) /\
    (In cl (codes "Tr0ub4dor&3xYz") /\ In cl LOWERCASE) /\
    (In cd (codes "Tr0ub4dor&3xYz") /\ In cd DIGITS) /\
    (In cs (codes "Tr0ub4dor&3xYz") /\ In cs SYMBOLS) /\
    NoDup [cu; cl; cd; cs].
Proof.
  apply (valid_password_content (codes "Tr0ub4dor&3xYz")).
  vm_compute. reflexivity.
Defined.

Lemma any_class_false (p class : str) :
  (forall c, In c p -> ~ In c class) ->
  any (fun ch => char_in ch class) p = false.
Proof.
  intros H. destruct (any _ p) eqn:E; trivial.
  apply any_class_In in E. destruct E as [c [H1 H2]].
  now destruct (H c H1).
Qed.

(** X11: characters outside the generation alphabet (spaces, control
    characters, anything beyond ASCII) count for the length only: a
    password made of such characters has no class flag, fails the
    validator, has diversity 0 and gets the fallback character-set size,
    the size of the lowercase class. *)
Theorem unrecognised_characters (p : str) :
  (forall c, In c p -> ~ In c FULL_SET) ->
  let v := validate_password p in
  upper_ok v = false /\ lower_ok v = false /\
  digit_ok v = false /\ symbol_ok v = false /\
  overall_result v = false /\
  diversity v = 0 /\
  _character_set_size p = len LOWERCASE.
Proof.
  intros H. cbv zeta.
  assert (check_upper p = false) as Hu.
  { apply any_class_false. intros c Hc Hin. apply (H c Hc), In_FULL_SET. tauto. }
  assert (check_lower p = false) as Hl.
  { apply any_class_false. intros c Hc Hin. apply (H c Hc), In_FULL_SET. tauto. }
  assert (check_digit p = false) as Hd.
  { apply any_class_false. intros c Hc Hin. apply (H c Hc), In_FULL_SET. tauto. }
  assert (check_symbol p = false) as Hs.
  { apply any_class_false. intros c Hc Hin. apply (H c Hc), In_FULL_SET. tauto. }
  unfold overall_result, diversity, _character_set_size.
  cbn [forallb validate_password length_ok upper_ok lower_ok digit_ok
    symbol_ok map fold_left].
  fold (check_upper p) (check_lower p) (check_digit p) (check_symbol p).
  rewrite Hu, Hl, Hd, Hs.
  repeat split; trivial. now rewrite andb_false_r.
Qed.

Lemma unrecognised_characters_witness :
  let v := validate_password (codes "   ") in
  upper_ok v = false /\ lower_ok v = false /\
  digit_ok v = false /\ symbol_ok v = false /\
  overall_result v = false /\
  diversity v = 0 /\
  _character_set_size (codes "   ") = len LOWERCASE.
Proof.
  apply (unrecognised_characters (codes "   ")).
  intros c Hc Hin. apply char_in_In in Hin.
  vm_compute in Hc. destruct Hc as [<- | [<- | [<- | []]]];
    vm_compute in Hin; discriminate.
Defined.

(** ** Scorer: labels, character-set size, order of the characters *)

(** X12: the fallback label "unknown" is what [_label_from_score] gives
    exactly for the scores outside [0, 10]. *)
Theorem label_unknown_iff (z : Z) :
  _label_from_score z = "unknown"%string <-> z < 0 \/ 10 < z.
Proof.
  split.
  - intros H.
    destruct (Z_lt_dec z 0) as [|H0]; [now left|].
    destruct (Z_lt_dec 10 z) as [|H10]; [now right|].
    destruct (label_bands z) as [Hweak [Hmedium Hstrong]].
    destruct (Z_le_gt_dec z 3);
      [rewrite Hweak in H by lia; discriminate|].
    destruct (Z_le_gt_dec z 6);
      [rewrite Hmedium in H by lia; discriminate|].
    rewrite Hstrong in H by lia; discriminate.
  - intros H. unfold _label_from_score, _LABELS, in_range.
    cbn [find fst snd].
    destruct (Z.leb_spec 0 z), (Z.ltb_spec z 4), (Z.leb_spec 4 z),
      (Z.ltb_spec z 7), (Z.leb_spec 7 z), (Z.ltb_spec z 11);
      cbn; try reflexivity; lia.
Qed.

(** X13: the character-set size is the sum of the sizes of the classes
    that occur (26, 26, 10, 32), raised to 26 when it is smaller.  It lies
    between 26 and 94, and a password in which of the four classes only
    digits occur is credited 26 characters, not 10. *)
Theorem character_set_size_formula (p : str) :
  let v := validate_password p in
  _character_set_size p =
    Z.max (26 * Z.b2z (upper_ok v) + 26 * Z.b2z (lower_ok v) +
           10 * Z.b2z (digit_ok v) + 32 * Z.b2z (symbol_ok v)) 26 /\
  26 <= _character_set_size p <= 94 /\
  (upper_ok v = false -> lower_ok v = false -> symbol_ok v = false ->
   _character_set_size p = 26).
Proof.
  cbv zeta. unfold _character_set_size.
  cbn [fold_left validate_password upper_ok lower_ok digit_ok symbol_ok].
  unfold check_upper, check_lower, check_digit, check_symbol.
  change (len UPPERCASE) with 26. change (len LOWERCASE) with 26.
  change (len DIGITS) with 10. change (len SYMBOLS) with 32.
  destruct (any (fun ch => char_in ch UPPERCASE) p),
    (any (fun ch => char_in ch LOWERCASE) p),
    (any (fun ch => char_in ch DIGITS) p),
    (any (fun ch => char_in ch SYMBOLS) p);
    cbn [Z.b2z]; repeat split; intros; try discriminate; lia.
Qed.

Lemma any_same_elements {A : Type} (f : A -> bool) (s t : list A) :
  (forall x, In x s <-> In x t) -> any f s = any f t.
Proof.
  intros H.
  destruct (any f s) eqn:Es; destruct (any f t) eqn:Et; trivial.
  - apply any_exists in Es. destruct Es as [x [Hin Hf]].
    assert (any f t = true) as E
      by (apply any_exists; exists x; split; [now apply H | exact Hf]).
    congruence.
  - apply any_exists in Et. destruct Et as [x [Hin Hf]].
    assert (any f s = true) as E
      by (apply any_exists; exists x; split; [now apply H | exact Hf]).
    congruence.
Qed.

Lemma character_set_size_perm (p q : str) :
  Permutation p q -> _character_set_size p = _character_set_size q.
Proof.
  intros HP. unfold _character_set_size. cbn [fold_left].
  now rewrite !(any_Permutation _ p q HP).
Qed.

Lemma repetition_penalty_perm (p q : str) :
  Permutation p q -> repetition_penalty p = repetition_penalty q.
Proof.
  intros HP. unfold repetition_penalty, set, len.
  rewrite (Permutation_length HP).
  replace (any (fun ch => pyfloat.int_gt (count p ch)
                  (pyfloat.truediv (Z.of_nat (List.length q)) 2))
               (nodup N.eq_dec p))
    with (any (fun ch => pyfloat.int_gt (count q ch)
                  (pyfloat.truediv (Z.of_nat (List.length q)) 2))
               (nodup N.eq_dec q)); [reflexivity|].
  transitivity (any (fun ch => pyfloat.int_gt (count q ch)
                  (pyfloat.truediv (Z.of_nat (List.length q)) 2))
               (nodup N.eq_dec p)).
  - apply any_same_elements. intros x. rewrite !nodup_In.
    split; apply Permutation_in; [apply Permutation_sym|]; exact HP.
  - unfold any.
    assert (forall ch, count q ch = count p ch) as Hc.
    { intros ch. unfold count. f_equal.
      apply (proj1 (Permutation_count_occ N.eq_dec q p)).
      now apply Permutation_sym. }
    clear HP. induction (nodup N.eq_dec p) as [|a l IH]; simpl; trivial.
    now rewrite Hc, IH.
Qed.

Lemma score_perm (log2 : Z -> pyfloat.float) (p q : str) :
  Permutation p q -> score log2 p = score log2 q.
Proof.
  intros HP.
  assert (_entropy log2 p = _entropy log2 q) as He.
  { unfold _entropy. cbv zeta.
    rewrite (character_set_size_perm p q HP).
    unfold len. rewrite (Permutation_length HP).
    destruct p as [|a p], q as [|b q]; trivial.
    - apply Permutation_nil in HP. discriminate.
    - apply Permutation_sym, Permutation_nil in HP. discriminate. }
  unfold score, raw_score, entropy_score, base, len. cbv zeta.
  now rewrite He, (validate_password_perm p q HP),
    (repetition_penalty_perm p q HP), (Permutation_length HP).
Qed.

(** X14: the strength of a password does not depend on the order of its
    characters: rearranged, it gets the same score and label (or the same
    failure), whatever [math.log2] is. *)
Theorem score_Permutation (log2 : Z -> pyfloat.float) (p q : str) :
  Permutation p q -> score log2 p = score log2 q.
Proof. exact (score_perm log2 p q). Qed.

Lemma score_Permutation_witness :
  score log2_floor (codes "ab") = score log2_floor (codes "ba").
Proof.
  apply (score_Permutation log2_floor (codes "ab") (codes "ba")).
  vm_compute. apply perm_swap.
Defined.

(** ** Request models and routes *)

Lemma check_length_field_ok (length : option Z) :
  FullRequest.check_length_field length = inr tt <->
  match length with None => True | Some n => 4 <= n <= 256 end.
Proof.
  unfold FullRequest.check_length_field. destruct length as [n|];
    [|tauto].
  destruct (Z.ltb_spec n 4); [split; [discriminate | lia]|].
  destruct (Z.ltb_spec 256 n); [split; [discriminate | lia]|].
  split; [lia | reflexivity].
Qed.

Lemma check_length_field_error (length : option Z) :
  match length with None => False | Some n => n < 4 \/ 256 < n end ->
  exists msg,
    FullRequest.check_length_field length = inl (ValidationError msg).
Proof.
  unfold FullRequest.check_length_field. destruct length as [n|];
    [|tauto]. intros H.
  destruct (Z.ltb_spec n 4); [eauto|].
  destruct (Z.ltb_spec 256 n); [eauto|]. lia.
Qed.

(** X15: a [FullRequest] is built exactly when the length, if given, lies
    in [4, 256] and a non-empty password or a length is given; the model
    then holds the two fields as they came. *)
Theorem full_request_accepted (password : option str) (length : option Z) :
  ((exists r, FullRequest.init password length = inr r) <->
   match length with None => True | Some n => 4 <= n <= 256 end /\
   (truthy_str password = true \/ length <> None)) /\
  (forall r, FullRequest.init password length = inr r ->
             FullRequest.password r = password /\
             FullRequest.length r = length).
Proof.
  unfold FullRequest.init, FullRequest.model_post_init.
  cbn [FullRequest.password FullRequest.length].
  pose proof (check_length_field_ok length) as Hok.
  destruct (FullRequest.check_length_field length) as [e | []] eqn:E;
    cbn [rbind ok raise FullRequest.wrap_value_error].
  - split.
    + split; [intros [r Hr]; discriminate|].
      intros [H _]. apply Hok in H. discriminate.
    + intros r Hr. discriminate.
  - assert (match length with None => True | Some n => 4 <= n <= 256 end)
      as Hlen by now apply Hok.
    destruct (truthy_str password) eqn:Ep; cbn [negb andb rbind ok raise FullRequest.wrap_value_error].
    + split; [|intros r Hr; inversion Hr; split; reflexivity].
      split; [tauto | eauto].
    + destruct length as [n|]; cbn [truthy_int].
      * replace (n =? 0) with false by (symmetry; apply Z.eqb_neq; lia).
        cbn [negb rbind ok raise FullRequest.wrap_value_error].
        split; [|intros r Hr; inversion Hr; split; reflexivity].
        split; [intros _; split; [exact Hlen | right; discriminate] | eauto].
      * cbn [negb rbind ok raise FullRequest.wrap_value_error]. split; [|intros r Hr; discriminate].
        split; [intros [r Hr]; discriminate|].
        intros [_ [H | H]]; [discriminate | congruence].
Qed.

(** X16: through [POST /password/generate] a requested length [L] yields a
    password exactly when [4 <= L <= 128], and the password then has [L]
    characters; the length 0 in particular is refused. *)
Theorem post_generate_returns_iff (L : Z) (g : rng) :
  ((exists r g', password_routes.post_generate (Some L) g = (inr r, g')) <->
   4 <= L <= max_length get_policy) /\
  (forall r g', password_routes.post_generate (Some L) g = (inr r, g') ->
                len (password_routes.password r) = L).
Proof.
  unfold password_routes.post_generate, GenerateRequest.init, bind, lift.
  pose proof (check_length_field_ok (Some L)) as Hok.
  destruct (FullRequest.check_length_field (Some L)) as [e | []] eqn:E;
    cbn [rbind ok raise FullRequest.wrap_value_error].
  - split; [|intros r g' H; discriminate].
    split; [intros [r [g' H]]; discriminate|].
    intros H. change (max_length get_policy) with 128 in H.
    assert (@inl exn unit e = inr tt) as Habs by (apply Hok; lia).
    discriminate.
  - assert (4 <= L <= 256) as HL by now apply Hok.
    unfold password_routes.generate_password, generate_flow.
    cbn [GenerateRequest.length].
    destruct (Z_le_gt_dec L (max_length get_policy)) as [Hle | Hgt].
    + destruct (generate_password_returns (Some L) g)
        as [pwd [g1 [R [Hlen _]]]].
      { rewrite effective_length_Some by lia. lia. }
      rewrite effective_length_Some in Hlen by lia.
      unfold returns in R. rewrite R. split.
      * split; [intros _; lia | eauto].
      * intros r g' H. inversion H. exact Hlen.
    + destruct (generate_password_raises (Some L) g) as [msg Hm].
      { rewrite effective_length_Some by lia. right. lia. }
      rewrite Hm. split; [|intros r g' H; discriminate].
      split; [intros [r [g' H]]; discriminate | lia].
Qed.

(** X17: the request models accept lengths up to 256, the policy only up
    to 128: for a length in between, both [POST /password/generate] and
    [POST /password/full] (without password) answer with status 400 and
    the generator's message, and nothing has been drawn. *)
Theorem schema_policy_gap (L : Z) (g : rng) :
  max_length get_policy < L <= 256 ->
  let e := HTTPException 400
             "Requested password length exceeds policy maximum" in
  password_routes.post_generate (Some L) g = (inl e, g) /\
  forall log2, post_full log2 None (Some L) g = (inl e, g).
Proof.
  intros HL. change (max_length get_policy) with 128 in HL. cbv zeta.
  assert (FullRequest.check_length_field (Some L) = inr tt) as Hck
    by (apply check_length_field_ok; lia).
  assert (generate_password (Some L) g =
          (inl (ValueError "Requested password length exceeds policy maximum"),
           g)) as Hgen.
  { unfold generate_password. cbv zeta.
    fold (effective_length (Some L)). rewrite effective_length_Some by lia.
    replace (L <? 4) with false by (symmetry; apply Z.ltb_ge; lia).
    replace (L >? max_length get_policy) with true; [reflexivity|].
    symmetry. rewrite Z.gtb_ltb. apply Z.ltb_lt.
    change (max_length get_policy) with 128. lia. }
  split.
  - unfold password_routes.post_generate, GenerateRequest.init, bind, lift.
    rewrite Hck. cbn [rbind ok raise FullRequest.wrap_value_error].
    unfold password_routes.generate_password, generate_flow.
    cbn [GenerateRequest.length]. now rewrite Hgen.
  - intros log2.
    unfold post_full, FullRequest.init, FullRequest.model_post_init,
      bind, lift.
    rewrite Hck. cbn [rbind ok raise FullRequest.wrap_value_error FullRequest.password FullRequest.length
      truthy_str truthy_int negb andb].
    replace (L =? 0) with false by (symmetry; apply Z.eqb_neq; lia).
    cbn [negb rbind ok raise FullRequest.wrap_value_error]. unfold full_analysis, full_flow, bind.
    cbn [FullRequest.password FullRequest.length]. now rewrite Hgen.
Qed.

Lemma schema_policy_gap_witness :
  let e := HTTPException 400
             "Requested password length exceeds policy maximum" in
  password_routes.post_generate (Some 200) tape0 = (inl e, tape0) /\
  forall log2, post_full log2 None (Some 200) tape0 = (inl e, tape0).
Proof.
  apply (schema_policy_gap 200 tape0). vm_compute.
  split; [reflexivity | discriminate].
Defined.

(** X18: [POST /password/generate] without a length returns a password of
    the policy's default length, and that password passes the
    validator. *)
Theorem post_generate_default (g : rng) :
  exists pwd g',
    password_routes.post_generate None g =
      (inr {| password_routes.password := pwd |}, g') /\
    len pwd = default_length get_policy /\
    overall_result (validate_password pwd) = true.
Proof.
  destruct (generate_password_returns None g)
    as [pwd [g' [R [Hlen [Hu [Hl [Hd [Hs _]]]]]]]].
  { vm_compute. split; discriminate. }
  exists pwd, g'. split; [|split; [exact Hlen|]].
  - unfold password_routes.post_generate, GenerateRequest.init, bind, lift.
    cbn [FullRequest.check_length_field rbind ok].
    unfold password_routes.generate_password, generate_flow.
    cbn [GenerateRequest.length]. unfold returns in R. now rewrite R.
  - unfold overall_result. cbn [forallb validate_password length_ok
      upper_ok lower_ok digit_ok symbol_ok].
    rewrite Hu, Hl, Hd, Hs.
    replace (check_length pwd) with true; [reflexivity|].
    symmetry. apply check_length_spec. rewrite Hlen.
    vm_compute. split; discriminate.
Qed.

Lemma score_value_range (log2 : Z -> pyfloat.float) (p : str) :
  (forall n, 1 <= n -> SFleb pyfloat.zero (log2 n) = true) ->
  exists s, score log2 p = inr s /\ 0 <= StrengthResult.score s <= 10.
Proof.
  intros Hlog2. destruct (score_returns log2 Hlog2 p) as [z Hz].
  eexists. split; [exact Hz|]. cbn [StrengthResult.score]. lia.
Qed.

(** X19: for a non-empty password in the request, the handler of
    [POST /password/full] answers with the validation and the strength of
    that password and leaves the password out of the response; nothing is
    drawn, and a length sent along is ignored. *)
Theorem full_analysis_supplied_password
    (log2 : Z -> pyfloat.float) (p : str) (length : option Z) (g : rng) :
  (forall n, 1 <= n -> SFleb pyfloat.zero (log2 n) = true) ->
  p <> [] ->
  exists s,
    score log2 p = inr s /\
    full_analysis log2
      {| FullRequest.password := Some p; FullRequest.length := length |} g =
      (inr {| r_validation := validation_response (validate_password p);
              r_strength := strength_response s;
              r_password := None |}, g).
Proof.
  intros Hlog2 Hp. destruct (score_value_range log2 p Hlog2) as [s [Hs _]].
  exists s. split; [exact Hs|].
  destruct p as [|c p]; [congruence|].
  unfold full_analysis, full_flow, bind, lift, ret.
  cbn [FullRequest.password FullRequest.length truthy_str]. rewrite Hs.
  reflexivity.
Qed.

Lemma full_analysis_supplied_password_witness :
  exists s,
    score log2_floor (codes "Ab1!") = inr s /\
    full_analysis log2_floor
      {| FullRequest.password := Some (codes "Ab1!");
         FullRequest.length := Some 20 |} tape0 =
      (inr {| r_validation :=
                validation_response (validate_password (codes "Ab1!"));
              r_strength := strength_response s;
              r_password := None |}, tape0).
Proof.
  apply (full_analysis_supplied_password log2_floor (codes "Ab1!")
           (Some 20) tape0).
  - exact log2_floor_nonneg.
  - vm_compute. discriminate.
Defined.

(** X20: a request to [POST /password/full] with the empty string as
    password and a length the generator accepts is answered with the
    validation and the strength of a freshly generated password, but the
    response does not contain that password: the route returns it only
    when the request's password is [None]. *)
Theorem post_full_empty_password_hidden
    (log2 : Z -> pyfloat.float) (L : Z) (g : rng) :
  (forall n, 1 <= n -> SFleb pyfloat.zero (log2 n) = true) ->
  4 <= L <= max_length get_policy ->
  exists pwd g' s,
    returns (generate_password (Some L)) g pwd g' /\
    len pwd = L /\
    score log2 pwd = inr s /\
    post_full log2 (Some []) (Some L) g =
      (inr {| r_validation := validation_response (validate_password pwd);
              r_strength := strength_response s;
              r_password := None |}, g').
Proof.
  intros Hlog2 HL. change (max_length get_policy) with 128 in HL.
  destruct (generate_password_returns (Some L) g)
    as [pwd [g' [R [Hlen _]]]].
  { rewrite effective_length_Some by lia.
    change (max_length get_policy) with 128. lia. }
  rewrite effective_length_Some in Hlen by lia.
  destruct (score_value_range log2 pwd Hlog2) as [s [Hs _]].
  exists pwd, g', s. repeat split; trivial.
  assert (FullRequest.check_length_field (Some L) = inr tt) as Hck
    by (apply check_length_field_ok; lia).
  unfold post_full, FullRequest.init, FullRequest.model_post_init,
    bind, lift.
  rewrite Hck. cbn [rbind ok raise FullRequest.wrap_value_error FullRequest.password FullRequest.length
    truthy_str truthy_int negb andb].
  replace (L =? 0) with false by (symmetry; apply Z.eqb_neq; lia).
  cbn [negb rbind ok raise FullRequest.wrap_value_error]. unfold full_analysis, full_flow, bind, lift, ret.
  cbn [FullRequest.password FullRequest.length truthy_str].
  unfold returns in R. rewrite R, Hs. reflexivity.
Qed.

Lemma post_full_empty_password_hidden_witness :
  exists pwd g' s,
    returns (generate_password (Some 20)) tape0 pwd g' /\
    len pwd = 20 /\
    score log2_floor pwd = inr s /\
    post_full log2_floor (Some []) (Some 20) tape0 =
      (inr {| r_validation := validation_response (validate_password pwd);
              r_strength := strength_response s;
              r_password := None |}, g').
Proof.
  apply (post_full_empty_password_hidden log2_floor 20 tape0).
  - exact log2_floor_nonneg.
  - vm_compute. split; discriminate.
Defined.

(** X21: a request to [POST /password/full] without password and with a
    length [L] within the validator's bounds is answered with a generated
    password of [L] characters, a validation whose overall result is true
    and a score between 0 and 10. *)
Theorem post_full_generated
    (log2 : Z -> pyfloat.float) (L : Z) (g : rng) :
  (forall n, 1 <= n -> SFleb pyfloat.zero (log2 n) = true) ->
  min_length get_policy <= L <= max_length get_policy ->
  exists r g' pwd,
    post_full log2 None (Some L) g = (inr r, g') /\
    r_password r = Some pwd /\
    len pwd = L /\
    r_overall_result (r_validation r) = true /\
    0 <= r_score (r_strength r) <= 10.
Proof.
  intros Hlog2 HL. change (min_length get_policy) with 12 in HL.
  change (max_length get_policy) with 128 in HL.
  destruct (generate_password_returns (Some L) g)
    as [pwd [g' [R [Hlen [Hu [Hl [Hd [Hs _]]]]]]]].
  { rewrite effective_length_Some by lia.
    change (max_length get_policy) with 128. lia. }
  rewrite effective_length_Some in Hlen by lia.
  destruct (score_value_range log2 pwd Hlog2) as [s [Hsc Hrange]].
  assert (FullRequest.check_length_field (Some L) = inr tt) as Hck
    by (apply check_length_field_ok; lia).
  eexists _, g', pwd. split.
  - unfold post_full, FullRequest.init, FullRequest.model_post_init,
      bind, lift.
    rewrite Hck. cbn [rbind ok raise FullRequest.wrap_value_error FullRequest.password FullRequest.length
      truthy_str truthy_int negb andb].
    replace (L =? 0) with false by (symmetry; apply Z.eqb_neq; lia).
    cbn [negb rbind ok raise FullRequest.wrap_value_error].
    unfold full_analysis, full_flow, bind, lift, ret.
    cbn [FullRequest.password FullRequest.length].
    unfold returns in R. rewrite R, Hsc. reflexivity.
  - cbn [r_password r_validation r_strength validation_response
      strength_response r_overall_result r_score].
    repeat split; trivial; try lia.
    unfold overall_result. cbn [forallb validate_password length_ok
      upper_ok lower_ok digit_ok symbol_ok].
    rewrite Hu, Hl, Hd, Hs.
    replace (check_length pwd) with true; [reflexivity|].
    symmetry. apply check_length_spec. rewrite Hlen.
    change (min_length get_policy) with 12.
    change (max_length get_policy) with 128. lia.
Qed.

Lemma post_full_generated_witness :
  exists r g' pwd,
    post_full log2_floor None (Some 20) tape0 = (inr r, g') /\
    r_password r = Some pwd /\
    len pwd = 20 /\
    r_overall_result (r_validation r) = true /\
    0 <= r_score (r_strength r) <= 10.
Proof.
  apply (post_full_generated log2_floor 20 tape0).
  - exact log2_floor_nonneg.
  - vm_compute. split; discriminate.
Defined.




(** ** The repetition penalty *)

Section HalfLength.
Import pyfloat.

(** Rounding leaves a canonical mantissa as it is. *)
Lemma binary_round_aux_canonical (s : bool) (m : positive) (e : Z) :
  fexp prec emax (Zpos (digits2_pos m) + e) = e -> e <= 971 ->
  binary_round_aux prec emax s (Zpos m) e loc_Exact = S754_finite s m e.
Proof.
  intros Hcan He. unfold binary_round_aux, shr_fexp.
  cbn [shr_record_of_loc Zdigits2]. rewrite Hcan, Z.sub_diag.
  cbn [shr shr_m loc_of_shr_record round_nearest_even shr_record_of_loc
    Zdigits2].
  rewrite Hcan, Z.sub_diag. cbn [shr shr_m].
  replace (e <=? emax - prec) with true; [reflexivity|].
  symmetry. apply Z.leb_le. change (emax - prec) with 971. lia.
Qed.

(** Rounding an even mantissa of 54 digits halves it exactly. *)
Lemma binary_round_aux_even (s : bool) (m : positive) (e : Z) :
  Zpos (digits2_pos m) = 53 -> -1075 <= e <= 970 ->
  binary_round_aux prec emax s (Zpos m~0) e loc_Exact =
    S754_finite s m (e + 1).
Proof.
  intros Hd He. unfold binary_round_aux, shr_fexp.
  cbn [shr_record_of_loc Zdigits2 digits2_pos].
  rewrite Pos2Z.inj_succ, Hd, fexp_eq.
  replace (Z.max (Z.succ 53 + e - 53) (-1074) - e) with 1 by lia.
  cbn [shr iter_pos shr_1 shr_m loc_of_shr_record round_nearest_even
    shr_record_of_loc orb Zdigits2].
  rewrite Hd, fexp_eq.
  replace (Z.max (53 + (e + 1) - 53) (-1074) - (e + 1)) with 0 by lia.
  cbn [shr shr_m].
  replace (e + 1 <=? emax - prec) with true; [reflexivity|].
  symmetry. apply Z.leb_le. change (emax - prec) with 971. lia.
Qed.

Lemma digits2_pos_53 (m : positive) :
  2 ^ 52 <= Zpos m < 2 ^ 53 -> Zpos (digits2_pos m) = 53.
Proof.
  intros [Hlo Hhi].
  assert (Zdigits2 (Zpos m) <= 53) as Hle
    by (apply Zdigits2_le; lia).
  cbn [Zdigits2] in Hle.
  destruct (Z_le_gt_dec (Zpos (digits2_pos m)) 52) as [H52|]; [|lia].
  assert (Zpos m < 2 ^ 52); [|lia].
  apply Zdigits2_lt_pow; [lia | exact H52].
Qed.

(** An integer below [2 ^ 53] converts to a float without rounding. *)
Lemma of_int_exact (p : positive) :
  Zpos p < 2 ^ 53 ->
  exists m e,
    of_int (Zpos p) = S754_finite false m e /\
    Zpos (digits2_pos m) = 53 /\ -52 <= e <= 0 /\
    Zpos m = Zpos p * 2 ^ (- e).
Proof.
  intros Hp. unfold of_int. cbn [binary_normalize]. unfold binary_round.
  pose proof (Pos2Z.is_pos (digits2_pos p)) as Hd1.
  assert (Zpos (digits2_pos p) <= 53) as Hd53
    by (apply (Zdigits2_le (Zpos p)); lia).
  destruct (shl_align_spec p 0 (fexp prec emax (Zpos (digits2_pos p) + 0)))
    as [m [e [-> [He Hm]]]].
  rewrite fexp_eq in He.
  assert (e = Zpos (digits2_pos p) - 53) as Hev by lia.
  assert (Zpos (digits2_pos m) = 53) as Hdm.
  { apply digits2_pos_53. rewrite Hm.
    replace (0 - e) with (53 - Zpos (digits2_pos p)) by lia.
    pose proof (digits2_pos_gt p) as Hgt.
    pose proof (digits2_pos_le p) as Hle.
    assert (0 < 2 ^ (53 - Zpos (digits2_pos p))) as Hpow
      by (apply Z.pow_pos_nonneg; lia).
    assert (2 ^ Zpos (digits2_pos p) * 2 ^ (53 - Zpos (digits2_pos p))
            = 2 ^ 53) as Hsplit
      by (rewrite <- Z.pow_add_r by lia; f_equal; lia).
    change (2 ^ 52) with (2 ^ 53 / 2). split; [|nia].
    apply Z.div_le_upper_bound; [lia|]. nia. }
  exists m, e. split; [|split; [exact Hdm|split; [lia|]]].
  - apply binary_round_aux_canonical; [|lia].
    rewrite Hdm, fexp_eq. lia.
  - rewrite Hm. now replace (0 - e) with (- e) by lia.
Qed.

(** Half of a float with a full mantissa and a small exponent is the same
    mantissa with the exponent lowered by one. *)
Lemma div_2_exact (m : positive) (e : Z) :
  Zpos (digits2_pos m) = 53 -> -52 <= e <= 0 ->
  div (S754_finite false m e) (of_int 2) = S754_finite false m (e - 1).
Proof.
  intros Hd He.
  change (of_int 2) with (S754_finite false 4503599627370496 (-51)).
  unfold div, SFdiv, SFdiv_core_binary. cbn [xorb Zdigits2].
  rewrite Hd.
  change (Zpos (digits2_pos 4503599627370496)) with 53.
  rewrite fexp_eq.
  replace (Z.min (Z.max (53 + e - (53 + -51) - 53) (-1074)) (e - -51))
    with (e - 2) by lia.
  replace (e - -51 - (e - 2)) with 53 by lia.
  rewrite Z.shiftl_mul_pow2 by lia.
  pose proof (Z_div_mod (Zpos m * 2 ^ 53) 4503599627370496 eq_refl) as Hdm.
  destruct (Z.div_eucl (Zpos m * 2 ^ 53) 4503599627370496) as [q r].
  change (2 ^ 53) with 9007199254740992 in Hdm.
  assert (q = Zpos m~0 /\ r = 0) as [-> ->] by lia.
  change (new_location 4503599627370496 0) with loc_Exact.
  rewrite binary_round_aux_even by (trivial; lia).
  f_equal. lia.
Qed.

(** [count > len(password) / 2] compares exactly as on the integers. *)
Lemma int_gt_half (c n : Z) :
  0 <= n < 2 ^ 53 -> int_gt c (truediv n 2) = (n <? 2 * c).
Proof.
  intros [Hn0 Hn]. unfold truediv. destruct n as [|p|p]; try lia.
  - change (div (of_int 0) (of_int 2)) with (S754_zero false).
    cbn [int_gt]. rewrite Z.gtb_ltb.
    destruct (Z.ltb_spec 0 c), (Z.ltb_spec 0 (2 * c)); trivial; lia.
  - destruct (of_int_exact p Hn) as [m [e [-> [Hd [He Hm]]]]].
    rewrite div_2_exact by trivial.
    cbn [int_gt cond_Zopp].
    replace (0 <=? e - 1) with false by (symmetry; apply Z.leb_gt; lia).
    rewrite Z.gtb_ltb, Hm.
    replace (- (e - 1)) with (1 + - e) by lia.
    rewrite Z.pow_add_r by lia. change (2 ^ 1) with 2.
    assert (0 < 2 ^ (- e)) as Hpow by (apply Z.pow_pos_nonneg; lia).
    destruct (Z.ltb_spec (Zpos p * 2 ^ (- e)) (c * (2 * 2 ^ (- e)))),
      (Z.ltb_spec (Zpos p) (2 * c)); trivial; nia.
Qed.

End HalfLength.

(** X24: for a password of fewer than [2 ^ 53] characters the repetition
    penalty is -2 exactly when one character makes up more than half of
    the password, and 0 otherwise; the comparison with the float
    [len(password) / 2] loses nothing. *)
Theorem repetition_penalty_majority (p : str) :
  len p < 2 ^ 53 ->
  (repetition_penalty p = -2 <->
   exists ch, In ch p /\ len p < 2 * count p ch) /\
  (repetition_penalty p = -2 \/ repetition_penalty p = 0).
Proof.
  intros Hlen. unfold repetition_penalty.
  assert (0 <= len p < 2 ^ 53) as Hrange by (unfold len in *; lia).
  destruct (any _ (set p)) eqn:E.
  - split; [|now left]. split; [intros _|reflexivity].
    apply any_exists in E. destruct E as [ch [Hin Hgt]].
    exists ch. split; [now apply nodup_In in Hin|].
    rewrite int_gt_half in Hgt by exact Hrange. now apply Z.ltb_lt.
  - split; [|now right]. split; [discriminate|].
    intros [ch [Hin Hgt]].
    assert (any (fun ch => pyfloat.int_gt (count p ch)
                   (pyfloat.truediv (len p) 2)) (set p) = true) as E'.
    { apply any_exists. exists ch. split; [now apply nodup_In|].
      rewrite int_gt_half by exact Hrange. now apply Z.ltb_lt. }
    congruence.
Qed.

Lemma repetition_penalty_majority_witness :
  (repetition_penalty (codes "aab") = -2 <->
   exists ch, In ch (codes "aab") /\
              len (codes "aab") < 2 * count (codes "aab") ch) /\
  (repetition_penalty (codes "aab") = -2 \/
   repetition_penalty (codes "aab") = 0).
Proof.
  apply (repetition_penalty_majority (codes "aab")).
  vm_compute. reflexivity.
Defined.

(** ** The service layer on its own *)

(** X25: called without password and without length, [full_flow] itself
    does not refuse: it generates a password of the default length, which
    passes the validator, and scores it.  Only the request model rejects
    such a call. *)
Theorem full_flow_without_arguments (log2 : Z -> pyfloat.float) (g : rng) :
  (forall n, 1 <= n -> SFleb pyfloat.zero (log2 n) = true) ->
  exists pwd g' s,
    full_flow log2 None None g = (inr (pwd, validate_password pwd, s), g') /\
    len pwd = default_length get_policy /\
    overall_result (validate_password pwd) = true /\
    score log2 pwd = inr s.
Proof.
  intros Hlog2.
  destruct (generate_password_returns None g)
    as [pwd [g' [R [Hlen [Hu [Hl [Hd [Hs _]]]]]]]].
  { vm_compute. split; discriminate. }
  destruct (score_value_range log2 pwd Hlog2) as [s [Hsc _]].
  exists pwd, g', s. split; [|split; [exact Hlen|split; [|exact Hsc]]].
  - unfold full_flow, bind, lift, ret. unfold returns in R.
    now rewrite R, Hsc.
  - unfold overall_result. cbn [forallb validate_password length_ok
      upper_ok lower_ok digit_ok symbol_ok].
    rewrite Hu, Hl, Hd, Hs.
    replace (check_length pwd) with true; [reflexivity|].
    symmetry. apply check_length_spec. rewrite Hlen.
    vm_compute. split; discriminate.
Qed.

Lemma full_flow_without_arguments_witness :
  exists pwd g' s,
    full_flow log2_floor None None tape0 =
      (inr (pwd, validate_password pwd, s), g') /\
    len pwd = default_length get_policy /\
    overall_result (validate_password pwd) = true /\
    score log2_floor pwd = inr s.
Proof.
  apply (full_flow_without_arguments log2_floor tape0).
  exact log2_floor_nonneg.
Defined.

(** X26: when no usable password is given and the effective length is out
    of the generator's bounds, [full_flow] fails with the generator's
    [ValueError] before anything is drawn, validated or scored, and the
    handler of [POST /password/full] turns it into status 400 with the
    same message. *)
Theorem full_flow_generator_failure
    (log2 : Z -> pyfloat.float) (password : option str) (length : option Z)
    (g : rng) :
  truthy_str password = false ->
  effective_length length < 4 \/
  max_length get_policy < effective_length length ->
  exists msg,
    full_flow log2 password length g = (inl (ValueError msg), g) /\
    full_analysis log2
      {| FullRequest.password := password; FullRequest.length := length |} g =
      (inl (HTTPException 400 msg), g).
Proof.
  intros Hp Hout.
  destruct (generate_password_raises length g Hout) as [msg Hm].
  exists msg.
  assert (full_flow log2 password length g = (inl (ValueError msg), g)) as H.
  { unfold full_flow, bind. rewrite Hp.
    destruct password as [p|]; now rewrite Hm. }
  split; [exact H|].
  unfold full_analysis. cbn [FullRequest.password FullRequest.length].
  now rewrite H.
Qed.

Lemma full_flow_generator_failure_witness :
  exists msg,
    full_flow log2_floor (Some []) (Some 3) tape0 =
      (inl (ValueError msg), tape0) /\
    full_analysis log2_floor
      {| FullRequest.password := Some []; FullRequest.length := Some 3 |}
      tape0 =
      (inl (HTTPException 400 msg), tape0).
Proof.
  apply (full_flow_generator_failure log2_floor (Some []) (Some 3) tape0).
  - reflexivity.
  - left. vm_compute. reflexivity.
Defined.

(** X27: every password the generator returns shows all four classes to
    the scorer: its diversity is 4 and its character-set size is 94, the
    size of the whole alphabet. *)
Theorem generated_password_profile (length : option Z) g pwd g' :
  returns (generate_password length) g pwd g' ->
  diversity (validate_password pwd) = 4 /\
  _character_set_size pwd = len FULL_SET.
Proof.
  intros R. pose proof (generate_password_in_bounds _ _ _ _ R) as Hb.
  destruct (generate_password_returns length g Hb)
    as [pwd' [g'' [R' [_ [Hu [Hl [Hd [Hs _]]]]]]]].
  destruct (returns_functional _ _ _ _ _ _ R R') as [-> _].
  unfold diversity, _character_set_size.
  cbn [validate_password upper_ok lower_ok digit_ok symbol_ok map fold_left].
  fold (check_upper pwd') (check_lower pwd') (check_digit pwd')
    (check_symbol pwd').
  rewrite Hu, Hl, Hd, Hs. split; reflexivity.
Qed.

Lemma generated_password_profile_witness :
  diversity (validate_password (codes "f7mtDk0]")) = 4 /\
  _character_set_size (codes "f7mtDk0]") = len FULL_SET.
Proof.
  apply (generated_password_profile (Some 8) tape0 (codes "f7mtDk0]")
           (snd (generate_password (Some 8) tape0))).
  vm_compute. reflexivity.
Defined.
